(** * Linphone core: lifecycle, listener fan-out and unread counters

    A shallow embedding of [core.cpp] (class [Core] and its private part
    [CorePrivate]) and of [conference/session/port-config.h].

    Conventions of the embedding:
    - a C++ [int] is a [Z] in the range [INT_MIN .. INT_MAX]; signed
      addition outside that range is undefined, so sums thread an
      [option Z];
    - a nullable [const char *] is an [option string];
    - object pointers ([CoreListener *], calls) are identities
      ([positive]); [std::list] is [list], [std::set] is [gset];
    - code that lives outside this translation unit (listener callbacks,
      [Call::terminate], [linphone_core_iterate], the storage engine) is a
      parameter of the model, acting on the program state. *)

From Stdlib Require Import ZArith.
From stdpp Require Import base option list strings gmap.

Local Open Scope Z_scope.

(** ** Machine integers *)

Definition INT_MAX : Z := 2147483647.
Definition INT_MIN : Z := -2147483648.

Definition in_int (z : Z) : Prop := INT_MIN ≤ z ≤ INT_MAX.

Global Instance in_int_dec z : Decision (in_int z).
Proof. unfold in_int. apply _. Defined.

(** [a + b] on [int]: defined only when the result is representable. *)
Definition int_add (a b : Z) : option Z :=
  if decide (in_int (a + b)) then Some (a + b) else None.

(** ** port-config.h *)

Module PortConfig.

Record t := mk {
  multicastIp : string;
  multicastBindIp : string;
  rtpPort : Z;
  rtcpPort : Z
}.

(** Default member initialisers: the two [std::string] members are
    default-constructed, the two ports carry [= -1]. *)
Definition default : t :=
  {| multicastIp := ""; multicastBindIp := ""; rtpPort := -1; rtcpPort := -1 |}.

End PortConfig.

(** ** Collaborators seen through their interface *)

(** Modelled from the spec: class [IdentityAddress] is declared in
    [address/identity-address.h], outside the sources at hand.  The spec
    compares local addresses by exact equality with no normalisation and
    keys a set by identity value, so an address is carried as its string
    form. *)
Definition IdentityAddress : Type := string.

Module ChatRoom.

(** What the aggregator reads from a conversation entity:
    [chatRoom->getLocalAddress()] and
    [chatRoom->getUnreadChatMessageCount()]. *)
Record t := mk {
  getLocalAddress : IdentityAddress;
  getUnreadChatMessageCount : Z
}.

End ChatRoom.

Module AbstractDb.
Inductive Backend := Mysql | Sqlite3.

Global Instance Backend_eq_dec : EqDecision Backend.
Proof. solve_decision. Defined.
End AbstractDb.

Module MainDb.

(** The storage handle: the connection it holds, and what the engine
    answers to the unread-count query. *)
Record t := mk {
  connection : option (AbstractDb.Backend * string);
  getUnreadChatMessageCount : Z
}.

End MainDb.

(** [struct _LinphoneProxyConfig]: only [identity_address] is read. *)
Record LinphoneProxyConfig := mkProxyConfig {
  identity_address : IdentityAddress
}.

(** [LpConfig]: section and key to value. *)
Abbreviation LpConfig := (gmap (string * string) string).

(** The C core behind [L_GET_C_BACK_PTR(q)], as far as [core.cpp] reads
    it. *)
Record LinphoneCore := mkLinphoneCore {
  config : LpConfig;
  dataPath : string;
  primary_contact_parsed : IdentityAddress;
  proxy_config_list : list LinphoneProxyConfig
}.

(** [linphone_core_add_proxy_config] appends a profile to the list. *)
Definition add_proxy_config (cfg : LinphoneProxyConfig) (cCore : LinphoneCore)
    : LinphoneCore :=
  mkLinphoneCore (config cCore) (dataPath cCore) (primary_contact_parsed cCore)
    (proxy_config_list cCore ++ [cfg]).

(** Pointers. *)
Definition CoreListener : Type := positive.
Definition Call : Type := positive.
Bind Scope positive_scope with CoreListener Call.

(** C enumerations, carried as their integer value. *)
Definition LinphoneGlobalState : Type := Z.
Definition LinphoneRegistrationState : Type := Z.

Abbreviation ChatRoomId := (IdentityAddress * IdentityAddress)%type.

(** ** CorePrivate *)

(** The two [unique_ptr] members are [true] when they own a handler. *)
Record CorePrivate := mkCorePrivate {
  mainDb : MainDb.t;
  remoteListEventHandler : bool;
  localListEventHandler : bool;
  listeners : list CoreListener;
  isInBackground : bool;
  calls : list Call;
  chatRooms : list ChatRoom.t;
  chatRoomsById : gmap ChatRoomId ChatRoom.t;
  noCreatedClientGroupChatRooms : gmap positive ChatRoom.t
}.

Definition set_mainDb (db : MainDb.t) (d : CorePrivate) : CorePrivate :=
  mkCorePrivate db (remoteListEventHandler d) (localListEventHandler d)
    (listeners d) (isInBackground d) (calls d) (chatRooms d) (chatRoomsById d)
    (noCreatedClientGroupChatRooms d).

Definition set_listEventHandlers (h : bool) (d : CorePrivate) : CorePrivate :=
  mkCorePrivate (mainDb d) h h
    (listeners d) (isInBackground d) (calls d) (chatRooms d) (chatRoomsById d)
    (noCreatedClientGroupChatRooms d).

Definition set_listeners (ls : list CoreListener) (d : CorePrivate) : CorePrivate :=
  mkCorePrivate (mainDb d) (remoteListEventHandler d) (localListEventHandler d)
    ls (isInBackground d) (calls d) (chatRooms d) (chatRoomsById d)
    (noCreatedClientGroupChatRooms d).

Definition set_isInBackground (b : bool) (d : CorePrivate) : CorePrivate :=
  mkCorePrivate (mainDb d) (remoteListEventHandler d) (localListEventHandler d)
    (listeners d) b (calls d) (chatRooms d) (chatRoomsById d)
    (noCreatedClientGroupChatRooms d).

Definition set_calls (cs : list Call) (d : CorePrivate) : CorePrivate :=
  mkCorePrivate (mainDb d) (remoteListEventHandler d) (localListEventHandler d)
    (listeners d) (isInBackground d) cs (chatRooms d) (chatRoomsById d)
    (noCreatedClientGroupChatRooms d).

Definition set_chatRooms (rs : list ChatRoom.t) (d : CorePrivate) : CorePrivate :=
  mkCorePrivate (mainDb d) (remoteListEventHandler d) (localListEventHandler d)
    (listeners d) (isInBackground d) (calls d) rs (chatRoomsById d)
    (noCreatedClientGroupChatRooms d).

(** Modelled from the spec: the member initialisers of [CorePrivate] are in
    [core/core-p.h], outside the sources at hand.  The execution state is
    initially "foreground"; the collections start empty. *)
Definition CorePrivate_new : CorePrivate :=
  {| mainDb := MainDb.mk None 0;
     remoteListEventHandler := false;
     localListEventHandler := false;
     listeners := [];
     isInBackground := false;
     calls := [];
     chatRooms := [];
     chatRoomsById := ∅;
     noCreatedClientGroupChatRooms := ∅ |}.

(** ** Misc: unread counters of [Core] *)

Module Core.

(** [int Core::getUnreadChatMessageCount () const] *)
Definition getUnreadChatMessageCount (d : CorePrivate) : Z :=
  MainDb.getUnreadChatMessageCount (mainDb d).

(** The body shared by the two counting loops:
    [if (cond) count += chatRoom->getUnreadChatMessageCount();] *)
Definition count_step (cond : ChatRoom.t → bool)
    (count : option Z) (chatRoom : ChatRoom.t) : option Z :=
  c ← count;
  if cond chatRoom
  then int_add c (ChatRoom.getUnreadChatMessageCount chatRoom)
  else Some c.

(** [int Core::getUnreadChatMessageCount (const IdentityAddress &) const] *)
Definition getUnreadChatMessageCount_at
    (d : CorePrivate) (localAddress : IdentityAddress) : option Z :=
  fold_left
    (count_step (λ chatRoom,
       bool_decide (ChatRoom.getLocalAddress chatRoom = localAddress)))
    (chatRooms d) (Some 0).

(** The set filled by the first half of
    [Core::getUnreadChatMessageCountFromActiveLocals]. *)
Definition activeLocalAddresses (cCore : LinphoneCore) : gset IdentityAddress :=
  fold_left (λ localAddresses cfg, {[ identity_address cfg ]} ∪ localAddresses)
    (proxy_config_list cCore)
    ({[ primary_contact_parsed cCore ]} ∪ ∅).

(** [int Core::getUnreadChatMessageCountFromActiveLocals () const] *)
Definition getUnreadChatMessageCountFromActiveLocals
    (cCore : LinphoneCore) (d : CorePrivate) : option Z :=
  let localAddresses := activeLocalAddresses cCore in
  fold_left
    (count_step (λ chatRoom,
       bool_decide (ChatRoom.getLocalAddress chatRoom ∈ localAddresses)))
    (chatRooms d) (Some 0).

End Core.

(** The mathematical sum of the per-entity unread counts of a list of
    conversation entities. *)
Definition sum_unread (rs : list ChatRoom.t) : Z :=
  foldr (λ r acc, ChatRoom.getUnreadChatMessageCount r + acc) 0 rs.

(** ** What the program does to the outside world *)

Inductive Event :=
  | EvGlobalStateChanged (listener : CoreListener) (state : LinphoneGlobalState)
  | EvNetworkReachable (listener : CoreListener) (sipNetworkReachable mediaNetworkReachable : bool)
  | EvRegistrationStateChanged (listener : CoreListener) (cfg : LinphoneProxyConfig)
      (state : LinphoneRegistrationState) (message : string)
  | EvEnteringBackground (listener : CoreListener)
  | EvEnteringForeground (listener : CoreListener)
  | EvTerminate (call : Call)
  | EvIterate
  | EvUsleep (usec : Z)
  | EvInfo (message : string)
  | EvConnect (backend : AbstractDb.Backend) (uri : string)
  | EvLoadChatRooms
  | EvClearSipAddressesCache.

Global Instance LinphoneProxyConfig_eq_dec : EqDecision LinphoneProxyConfig.
Proof. solve_decision. Defined.

Global Instance Event_eq_dec : EqDecision Event.
Proof. solve_decision. Defined.

(** The listener a callback event is addressed to. *)
Definition event_listener (e : Event) : option CoreListener :=
  match e with
  | EvGlobalStateChanged listener _
  | EvNetworkReachable listener _ _
  | EvRegistrationStateChanged listener _ _ _
  | EvEnteringBackground listener
  | EvEnteringForeground listener => Some listener
  | _ => None
  end.

(** How many callbacks of a trace went to [listener]. *)
Definition notified (listener : CoreListener) (tr : list Event) : nat :=
  length (filter (λ e, event_listener e = Some listener) tr).

(** How many times [listener] occurs in a listener collection. *)
Definition occurrences (listener : CoreListener) (ls : list CoreListener) : nat :=
  length (filter (λ l, l = listener) ls).

(** The three event kinds broadcast by the [notify*] family, with their
    arguments. *)
Inductive Notification :=
  | GlobalStateChanged (state : LinphoneGlobalState)
  | NetworkReachable (sipNetworkReachable mediaNetworkReachable : bool)
  | RegistrationStateChanged (cfg : LinphoneProxyConfig)
      (state : LinphoneRegistrationState) (message : string).

(** The callback event a notification produces at a listener. *)
Definition notification_event (n : Notification) (listener : CoreListener) : Event :=
  match n with
  | GlobalStateChanged state => EvGlobalStateChanged listener state
  | NetworkReachable sip media => EvNetworkReachable listener sip media
  | RegistrationStateChanged cfg state message =>
      EvRegistrationStateChanged listener cfg state message
  end.

(** The interface [CoreListener]: five virtual callbacks, each free to do
    anything to the program state [W]. *)
Record CoreListenerMethods (W : Type) := mkCoreListenerMethods {
  onGlobalStateChanged : LinphoneGlobalState → W → W;
  onNetworkReachable : bool → bool → W → W;
  onRegistrationStateChanged :
    LinphoneProxyConfig → LinphoneRegistrationState → string → W → W;
  onEnteringBackground : W → W;
  onEnteringForeground : W → W
}.
Arguments onGlobalStateChanged {W}.
Arguments onNetworkReachable {W}.
Arguments onRegistrationStateChanged {W}.
Arguments onEnteringBackground {W}.
Arguments onEnteringForeground {W}.

(** How a run of fallible code ends. *)
Inductive Outcome (A : Type) :=
  | Returned (a : A)
  | Aborted (message : string)
  | Undefined.
Arguments Returned {A}.
Arguments Aborted {A}.
Arguments Undefined {A}.

Definition Outcome_bind {A B} (m : Outcome A) (k : A → Outcome B) : Outcome B :=
  match m with
  | Returned a => k a
  | Aborted msg => Aborted msg
  | Undefined => Undefined
  end.

Notation "x ←! m ; k" := (Outcome_bind m (λ x, k))
  (at level 20, m at level 100, k at level 200, only parsing).

(** ** C helpers used by [init] *)

Definition LINPHONE_DB : string := "linphone.db".

(** Modelled from the spec: [lp_config_get_string] is defined with the
    configuration parser, outside the sources at hand.  It answers the
    value stored under section and key, and [default_string] when there is
    none. *)
Definition lp_config_get_string (cfg : LpConfig) (section key : string)
    (default_string : option string) : option string :=
  match cfg !! (section, key) with
  | Some value => Some value
  | None => default_string
  end.

(** [L_C_TO_STRING]: a null pointer becomes the empty [std::string]. *)
Definition L_C_TO_STRING (str : option string) : string :=
  match str with
  | Some s => s
  | None => ""
  end.

(** [strcmp] on two non-null strings.  The C standard fixes only the sign
    of the result, which is what is returned here. *)
Fixpoint strcmp_sign (a b : string) : Z :=
  match a, b with
  | EmptyString, EmptyString => 0
  | EmptyString, String _ _ => -1
  | String _ _, EmptyString => 1
  | String c a', String c' b' =>
      if decide (c = c') then strcmp_sign a' b'
      else if decide (Ascii.nat_of_ascii c < Ascii.nat_of_ascii c')%nat then -1 else 1
  end.

(** [strcmp]: passing a null pointer is undefined behaviour. *)
Definition strcmp (a b : option string) : Outcome Z :=
  match a, b with
  | Some a, Some b => Returned (strcmp_sign a b)
  | _, _ => Undefined
  end.

(** [std::string::empty] *)
Definition empty (s : string) : bool :=
  match s with
  | EmptyString => true
  | String _ _ => false
  end.

(** Lines 51-60 of [CorePrivate::init]: the choice of backend and URI. *)
Definition init_storage (cCore : LinphoneCore) : Outcome (AbstractDb.Backend * string) :=
  let uri := L_C_TO_STRING (lp_config_get_string (config cCore) "storage" "uri" None) in
  if negb (empty uri) then
    r ←! strcmp (lp_config_get_string (config cCore) "storage" "backend" None)
                (Some "mysql");
    Returned (if decide (r = 0) then AbstractDb.Mysql else AbstractDb.Sqlite3, uri)
  else
    Returned (AbstractDb.Sqlite3, dataPath cCore +:+ LINPHONE_DB).

(** ** The stateful part: [CorePrivate] methods and the [Core] facade *)

Section Runtime.

(** Everything of the program state that is not the [CorePrivate]
    object itself: listener objects, call objects, the network stack. *)
Context {Env : Type}.

Abbreviation World := (Env * CorePrivate)%type.

(** The object behind each listener pointer. *)
Variable listenerObject : CoreListener → CoreListenerMethods World.

(** [Call::terminate], [linphone_core_iterate],
    [AddressPrivate::clearSipAddressesCache],
    [MainDb::connect] and [CorePrivate::loadChatRooms] are defined in
    other translation units. *)
Variable Call_terminate : Call → World → World.
Variable linphone_core_iterate : World → World.
Variable clearSipAddressesCache : Env → Env.
Variable MainDb_connect : AbstractDb.Backend → string → MainDb.t → bool * MainDb.t.
Variable loadChatRooms : World → World.

Definition update (f : CorePrivate → CorePrivate) (w : World) : World :=
  (w.1, f w.2).

(** *** Listener registry *)

(** [listeners.push_back(listener)] *)
Definition registerListener (listener : CoreListener) (w : World) : World :=
  update (λ d, set_listeners (listeners d ++ [listener]) d) w.

(** [listeners.remove(listener)]: [std::list::remove] erases every
    element that compares equal to its argument. *)
Definition unregisterListener (listener : CoreListener) (w : World) : World :=
  update (λ d, set_listeners (filter (λ l, l ≠ listener) (listeners d)) d) w.

(** [for (const auto &listener : listenersCopy) listener->call(...)]:
    the range is the local copy, the callbacks act on the live state. *)
Fixpoint for_each_listener (call : CoreListener → World → World)
    (ev : CoreListener → Event) (listenersCopy : list CoreListener)
    (w : World) : World * list Event :=
  match listenersCopy with
  | [] => (w, [])
  | listener :: rest =>
      let w1 := call listener w in
      let '(w2, tr) := for_each_listener call ev rest w1 in
      (w2, ev listener :: tr)
  end.

Definition notifyGlobalStateChanged (state : LinphoneGlobalState)
    (w : World) : World * list Event :=
  let listenersCopy := listeners w.2 in
  for_each_listener
    (λ listener, onGlobalStateChanged (listenerObject listener) state)
    (λ listener, EvGlobalStateChanged listener state)
    listenersCopy w.

Definition notifyNetworkReachable (sipNetworkReachable mediaNetworkReachable : bool)
    (w : World) : World * list Event :=
  let listenersCopy := listeners w.2 in
  for_each_listener
    (λ listener, onNetworkReachable (listenerObject listener)
                   sipNetworkReachable mediaNetworkReachable)
    (λ listener, EvNetworkReachable listener sipNetworkReachable mediaNetworkReachable)
    listenersCopy w.

Definition notifyRegistrationStateChanged (cfg : LinphoneProxyConfig)
    (state : LinphoneRegistrationState) (message : string)
    (w : World) : World * list Event :=
  let listenersCopy := listeners w.2 in
  for_each_listener
    (λ listener, onRegistrationStateChanged (listenerObject listener) cfg state message)
    (λ listener, EvRegistrationStateChanged listener cfg state message)
    listenersCopy w.

(** Dispatch on the event kind to the matching [notify*] method. *)
Definition notify (n : Notification) (w : World) : World * list Event :=
  match n with
  | GlobalStateChanged state => notifyGlobalStateChanged state w
  | NetworkReachable sip media => notifyNetworkReachable sip media w
  | RegistrationStateChanged cfg state message =>
      notifyRegistrationStateChanged cfg state message w
  end.

(** *** Execution state *)

Definition notifyEnteringBackground (w : World) : World * list Event :=
  if isInBackground w.2 then (w, [])
  else
    let w1 := update (set_isInBackground true) w in
    let listenersCopy := listeners w1.2 in
    for_each_listener
      (λ listener, onEnteringBackground (listenerObject listener))
      EvEnteringBackground listenersCopy w1.

Definition notifyEnteringForeground (w : World) : World * list Event :=
  if negb (isInBackground w.2) then (w, [])
  else
    let w1 := update (set_isInBackground false) w in
    let listenersCopy := listeners w1.2 in
    for_each_listener
      (λ listener, onEnteringForeground (listenerObject listener))
      EvEnteringForeground listenersCopy w1.

(** [Core::enterBackground] and [Core::enterForeground] *)
Definition enterBackground (w : World) : World * list Event :=
  notifyEnteringBackground w.

Definition enterForeground (w : World) : World * list Event :=
  notifyEnteringForeground w.

(** *** Teardown *)

(** One pass through the body of [while (!calls.empty())]. *)
Definition drain_body (w : World) (front : Call) : World :=
  linphone_core_iterate (Call_terminate front w).

Definition drain_events (front : Call) : list Event :=
  [EvTerminate front; EvIterate; EvUsleep 10000].

(** The drain loop; [fuel] bounds the number of passes, [None] means the
    loop is still running when the fuel is spent. *)
Fixpoint uninit_drain (fuel : nat) (w : World) : option (World * list Event) :=
  match calls w.2 with
  | [] => Some (w, [])
  | front :: _ =>
      match fuel with
      | O => None
      | S fuel' =>
          '(w', tr) ← uninit_drain fuel' (drain_body w front);
          Some (w', drain_events front ++ tr)
      end
  end.

(** The loop seen from outside: a finished run of the drain loop from
    [w], with the events it produced and the state it stopped in.  The
    loop stops when the active-call collection is empty; otherwise it
    makes one pass on the first call and goes on. *)
Inductive DrainRun : World → list Event → World → Prop :=
  | DrainRun_stop w :
      calls w.2 = [] → DrainRun w [] w
  | DrainRun_pass w front rest tr w' :
      calls w.2 = front :: rest →
      DrainRun (drain_body w front) tr w' →
      DrainRun w (drain_events front ++ tr) w'.

(** One poll cycle as a state transformer (the identity once the
    collection is empty). *)
Definition drain_pass (w : World) : World :=
  match calls w.2 with
  | [] => w
  | front :: _ => drain_body w front
  end.

(** What follows the loop in [CorePrivate::uninit]. *)
Definition uninit_release (w : World) : World :=
  (clearSipAddressesCache w.1,
   mkCorePrivate (mainDb w.2) false false (listeners w.2) (isInBackground w.2)
     (calls w.2) [] ∅ ∅).

Definition uninit (fuel : nat) (w : World) : option (World * list Event) :=
  '(w1, tr) ← uninit_drain fuel w;
  Some (uninit_release w1, tr ++ [EvClearSipAddressesCache]).

(** *** Start-up *)

(** Modelled from the spec: the logger ([logger/logger.h]) is outside the
    sources at hand.  A fatal-level report is not a recoverable error:
    it halts the process, so the statements after it do not run. *)
Definition lFatal {A} (message : string) : Outcome A := Aborted message.

(** A [MainDb] that has not been connected yet. *)
Definition MainDb_new : MainDb.t := MainDb.mk None 0.

Definition init (cCore : LinphoneCore) (w : World) : list Event * Outcome World :=
  let w0 := update (λ d, set_listEventHandlers true (set_mainDb MainDb_new d)) w in
  match init_storage cCore with
  | Returned (backend, uri) =>
      let log := [EvInfo ("Opening linphone database: " +:+ uri); EvConnect backend uri] in
      let '(connected, db) := MainDb_connect backend uri (mainDb w0.2) in
      let w1 := update (set_mainDb db) w0 in
      if negb connected then (log, lFatal "Unable to open linphone database.")
      else (log ++ [EvLoadChatRooms], Returned (loadChatRooms w1))
  | Aborted message => ([], Aborted message)
  | Undefined => ([], Undefined)
  end.

End Runtime.

(** ** Callers of the facade *)




Section Callers.

Context {Env : Type}.
Local Abbreviation World := (Env * CorePrivate)%type.

Variable listenerObject : CoreListener → CoreListenerMethods World.

(** The callback a notification invokes on a listener. *)
Definition notification_call (n : Notification) (listener : CoreListener)
    : World → World :=
  match n with
  | GlobalStateChanged state => onGlobalStateChanged (listenerObject listener) state
  | NetworkReachable sip media => onNetworkReachable (listenerObject listener) sip media
  | RegistrationStateChanged cfg state message =>
      onRegistrationStateChanged (listenerObject listener) cfg state message
  end.


End Callers.

(** ** Sample data

    Concrete sessions on which the statements below are exercised. *)

Module Sample.

Definition alice : IdentityAddress := "sip:alice@example.org".
Definition bob : IdentityAddress := "sip:bob@example.org".
Definition carol : IdentityAddress := "sip:carol@example.org".

Definition room_alice : ChatRoom.t := ChatRoom.mk alice 2.
Definition room_bob : ChatRoom.t := ChatRoom.mk bob 3.
Definition room_carol : ChatRoom.t := ChatRoom.mk carol 5.

(** A running session: three conversations, two listeners, two calls;
    the storage engine reports ten unread messages. *)
Definition session : CorePrivate :=
  {| mainDb := MainDb.mk (Some (AbstractDb.Sqlite3, "/data/linphone.db")) 10;
     remoteListEventHandler := true;
     localListEventHandler := true;
     listeners := [1; 2]%positive;
     isInBackground := false;
     calls := [7; 8]%positive;
     chatRooms := [room_alice; room_bob; room_carol];
     chatRoomsById := ∅;
     noCreatedClientGroupChatRooms := ∅ |}.

(** Primary contact alice; two registration profiles, both for bob. *)
Definition cCore : LinphoneCore :=
  {| config := ∅;
     dataPath := "/data/";
     primary_contact_parsed := alice;
     proxy_config_list := [mkProxyConfig bob; mkProxyConfig bob] |}.

(** The rest of the program state in the samples: the calls whose
    termination has been requested and not yet carried out. *)
Definition Env : Type := list Call.

(** Listener 1 unregisters itself from within each of its callbacks and
    registers listener 3 in its place; the other listeners do
    nothing. *)
Definition swap_1_for_3 (w : Env * CorePrivate) : Env * CorePrivate :=
  (w.1, set_listeners (filter (λ l, l ≠ 1%positive) (listeners w.2) ++ [3%positive]) w.2).

Definition listenerObject (listener : CoreListener)
    : CoreListenerMethods (Env * CorePrivate) :=
  if decide (listener = 1%positive) then
    {| onGlobalStateChanged := λ _, swap_1_for_3;
       onNetworkReachable := λ _ _, swap_1_for_3;
       onRegistrationStateChanged := λ _ _ _, swap_1_for_3;
       onEnteringBackground := swap_1_for_3;
       onEnteringForeground := swap_1_for_3 |}
  else
    {| onGlobalStateChanged := λ _ w, w;
       onNetworkReachable := λ _ _ w, w;
       onRegistrationStateChanged := λ _ _ _ w, w;
       onEnteringBackground := λ w, w;
       onEnteringForeground := λ w, w |}.

(** A call stack that honours a termination request at the next tick:
    [terminate] records the request, the tick removes the requested
    calls from the active-call collection. *)
Definition Call_terminate (call : Call) (w : Env * CorePrivate) : Env * CorePrivate :=
  (call :: w.1, w.2).

Definition linphone_core_iterate (w : Env * CorePrivate) : Env * CorePrivate :=
  ([], set_calls (filter (λ c, c ∉ w.1) (calls w.2)) w.2).

(** A call stack that never lets go of a call. *)
Definition stuck_iterate (w : Env * CorePrivate) : Env * CorePrivate := w.

Definition clearSipAddressesCache (env : Env) : Env := env.

(** Configurations of the [storage] section. *)
Definition config_foo_othervalue : LpConfig :=
  <[("storage", "backend") := "othervalue"]> (<[("storage", "uri") := "foo"]> ∅).

Definition config_foo_mysql : LpConfig :=
  <[("storage", "backend") := "mysql"]> (<[("storage", "uri") := "foo"]> ∅).

Definition config_foo_only : LpConfig :=
  <[("storage", "uri") := "foo"]> ∅.

Definition with_config (cfg : LpConfig) : LinphoneCore :=
  mkLinphoneCore cfg (dataPath cCore) (primary_contact_parsed cCore)
    (proxy_config_list cCore).

(** A storage engine that cannot be opened, and one that can. *)
Definition connect_fails (backend : AbstractDb.Backend) (uri : string)
    (db : MainDb.t) : bool * MainDb.t :=
  (false, db).

Definition connect_succeeds (backend : AbstractDb.Backend) (uri : string)
    (db : MainDb.t) : bool * MainDb.t :=
  (true, MainDb.mk (Some (backend, uri)) 10).

Definition loadChatRooms (w : Env * CorePrivate) : Env * CorePrivate :=
  (w.1, set_chatRooms [room_alice; room_bob; room_carol] w.2).

Definition world : Env * CorePrivate := ([], session).

(** The sample session once its calls are over, and what [uninit] makes of
    it: the conversation collection is emptied, the storage handle is left
    as it was. *)
Definition world_idle : Env * CorePrivate := ([], set_calls [] session).

Definition session_emptied : CorePrivate :=
  (uninit_release clearSipAddressesCache world_idle).2.


(** A call stack in which the tick that follows a termination request
    drops the first call of the collection. *)
Definition hangup_iterate (w : Env * CorePrivate) : Env * CorePrivate :=
  (w.1, set_calls (tail (calls w.2)) w.2).

(** The C core with no registration profile, and with a single one for
    bob. *)
Definition cCore_no_profile : LinphoneCore :=
  mkLinphoneCore (config cCore) (dataPath cCore) alice [].

(** Two registration profiles, both carrying the primary contact's own
    identity. *)
Definition cCore_own_profiles : LinphoneCore :=
  mkLinphoneCore (config cCore) (dataPath cCore) alice
    [mkProxyConfig alice; mkProxyConfig alice].

Definition cCore_one_profile : LinphoneCore :=
  mkLinphoneCore (config cCore) (dataPath cCore) alice [mkProxyConfig bob].

(** The sample conversations in another order. *)
Definition session_reordered : CorePrivate :=
  set_chatRooms [room_carol; room_bob; room_alice] session.

(** A conversation whose unread count alone fills an [int]. *)
Definition room_bob_full : ChatRoom.t := ChatRoom.mk bob 2147483647.

Definition session_overflowing : CorePrivate :=
  set_chatRooms [room_bob; room_bob_full] session.

End Sample.

(** ** Properties of the unread counters *)

Section Counters.

Implicit Types (rs : list ChatRoom.t) (r : ChatRoom.t) (count : option Z).

Context (P : ChatRoom.t → Prop) `{!∀ r, Decision (P r)}.

Local Abbreviation cond := (λ r : ChatRoom.t, bool_decide (P r)).

Lemma count_step_skip count r :
  ¬ P r → Core.count_step cond count r = count.
Proof.
  intros Hr. unfold Core.count_step.
  rewrite bool_decide_eq_false_2 by done. by destruct count.
Qed.

Lemma count_step_hit (c : Z) r :
  P r → Core.count_step cond (Some c) r
        = int_add c (ChatRoom.getUnreadChatMessageCount r).
Proof.
  intros Hr. unfold Core.count_step.
  by rewrite bool_decide_eq_true_2.
Qed.

Lemma sum_unread_nonneg rs :
  Forall (λ r, 0 ≤ ChatRoom.getUnreadChatMessageCount r) rs → 0 ≤ sum_unread rs.
Proof. induction 1; simpl; lia. Qed.

Lemma count_loop_drop rs1 r rs2 count :
  ¬ P r →
  fold_left (Core.count_step cond) (rs1 ++ r :: rs2) count
  = fold_left (Core.count_step cond) (rs1 ++ rs2) count.
Proof.
  intros Hr. rewrite !fold_left_app. cbn [fold_left]. by rewrite count_step_skip.
Qed.

Lemma count_loop_none rs count :
  filter P rs = [] → fold_left (Core.count_step cond) rs count = count.
Proof.
  revert count. induction rs as [|r rs IH]; intros count Hf; [done|].
  cbn [fold_left]. destruct (decide (P r)) as [Hr|Hr].
  - rewrite filter_cons_True in Hf by done. discriminate.
  - rewrite filter_cons_False in Hf by done.
    rewrite count_step_skip by done. by apply IH.
Qed.

Lemma count_loop_sum rs (acc : Z) :
  Forall (λ r, 0 ≤ ChatRoom.getUnreadChatMessageCount r) (filter P rs) →
  INT_MIN ≤ acc →
  acc + sum_unread (filter P rs) ≤ INT_MAX →
  fold_left (Core.count_step cond) rs (Some acc)
  = Some (acc + sum_unread (filter P rs)).
Proof.
  revert acc. induction rs as [|r rs IH]; intros acc Hpos Hlo Hhi; cbn [fold_left].
  - simpl. f_equal. lia.
  - destruct (decide (P r)) as [Hr|Hr].
    + rewrite filter_cons_True in Hpos, Hhi |- * by done.
      apply Forall_cons in Hpos as [Hr0 Hpos].
      pose proof (sum_unread_nonneg _ Hpos) as Hrest. simpl in Hhi.
      rewrite count_step_hit by done. unfold int_add.
      rewrite decide_True by (unfold in_int; lia).
      rewrite IH by (done || lia). simpl. f_equal. lia.
    + rewrite filter_cons_False in Hpos, Hhi |- * by done.
      rewrite count_step_skip by done. by apply IH.
Qed.

End Counters.

(** C10. A default-constructed [PortConfig] has both ports at [-1] and
    both multicast address strings empty. *)
Theorem PortConfig_default_members :
  PortConfig.rtpPort PortConfig.default = -1
  ∧ PortConfig.rtcpPort PortConfig.default = -1
  ∧ PortConfig.multicastIp PortConfig.default = ""
  ∧ PortConfig.multicastBindIp PortConfig.default = "".
Proof. repeat split. Qed.

(** C3, as the spec words it, fails: on the session left by [uninit],
    whose conversation collection is empty, the no-argument counter
    answers what the storage engine reports (here 10), not 0, and so not
    the sum over the collection. *)
Lemma unreadCount_not_sum_of_collection :
  uninit Sample.Call_terminate Sample.linphone_core_iterate
    Sample.clearSipAddressesCache 0 Sample.world_idle
  = Some (([], Sample.session_emptied), [EvClearSipAddressesCache])
  ∧ chatRooms Sample.session_emptied = []
  ∧ Core.getUnreadChatMessageCount Sample.session_emptied = 10
  ∧ Core.getUnreadChatMessageCount Sample.session_emptied
    ≠ sum_unread (chatRooms Sample.session_emptied).
Proof.
  split; [reflexivity|]. split; [reflexivity|]. split; [reflexivity|].
  vm_compute. discriminate.
Qed.

(** C3, amended. The no-argument counter returns the answer of the storage
    handle's unread-count query and never reads the in-memory conversation
    collection: replacing the collection by any other leaves the result
    unchanged. *)
Theorem unreadCount_delegates_to_storage (d : CorePrivate) :
  Core.getUnreadChatMessageCount d = MainDb.getUnreadChatMessageCount (mainDb d)
  ∧ ∀ rs, Core.getUnreadChatMessageCount (set_chatRooms rs d)
          = Core.getUnreadChatMessageCount d.
Proof. by split. Qed.

(** C8. [unreadCount(addr)] is the sum of the per-entity counts over the
    entities whose local address equals [addr] (counts being non-negative
    [int]s whose sum fits an [int]); an entity with another local address
    can be dropped from the collection without changing the result; with
    no matching entity the result is 0. *)
Theorem unreadCount_at_is_filtered_sum (d : CorePrivate) (addr : IdentityAddress)
    (Hcounts : Forall (λ r, 0 ≤ ChatRoom.getUnreadChatMessageCount r)
                 (filter (λ r, ChatRoom.getLocalAddress r = addr) (chatRooms d)))
    (Hfits : sum_unread (filter (λ r, ChatRoom.getLocalAddress r = addr) (chatRooms d))
             ≤ INT_MAX) :
  Core.getUnreadChatMessageCount_at d addr
  = Some (sum_unread (filter (λ r, ChatRoom.getLocalAddress r = addr) (chatRooms d)))
  ∧ (∀ rs1 r rs2,
       chatRooms d = rs1 ++ r :: rs2 →
       ChatRoom.getLocalAddress r ≠ addr →
       Core.getUnreadChatMessageCount_at (set_chatRooms (rs1 ++ rs2) d) addr
       = Core.getUnreadChatMessageCount_at d addr)
  ∧ (filter (λ r, ChatRoom.getLocalAddress r = addr) (chatRooms d) = [] →
     Core.getUnreadChatMessageCount_at d addr = Some 0).
Proof.
  unfold Core.getUnreadChatMessageCount_at. split; [|split].
  - rewrite (count_loop_sum (λ r, ChatRoom.getLocalAddress r = addr));
      [f_equal; lia | done | unfold INT_MIN; lia | lia].
  - intros rs1 r rs2 Hrs Hr. rewrite Hrs. simpl.
    symmetry. by apply (count_loop_drop (λ r, ChatRoom.getLocalAddress r = addr)).
  - intros Hnone.
    by apply (count_loop_none (λ r, ChatRoom.getLocalAddress r = addr)).
Qed.

Lemma unreadCount_at_is_filtered_sum_witness :
  Core.getUnreadChatMessageCount_at Sample.session Sample.bob = Some 3
  ∧ Core.getUnreadChatMessageCount_at
      (set_chatRooms [Sample.room_alice; Sample.room_bob] Sample.session) Sample.bob
    = Core.getUnreadChatMessageCount_at Sample.session Sample.bob.
Proof.
  destruct (unreadCount_at_is_filtered_sum Sample.session Sample.bob) as (Hsum & Hdrop & _).
  - vm_compute. repeat constructor. discriminate.
  - vm_compute. discriminate.
  - split.
    + exact Hsum.
    + apply (Hdrop [Sample.room_alice; Sample.room_bob] Sample.room_carol []).
      * reflexivity.
      * vm_compute. discriminate.
Defined.

(** The set built by the insertion loop is the primary contact's identity
    together with the identities of all profiles. *)
Lemma insert_loop_set (cfgs : list LinphoneProxyConfig) (s : gset IdentityAddress) :
  fold_left (λ localAddresses cfg, {[ identity_address cfg ]} ∪ localAddresses) cfgs s
  = s ∪ list_to_set (identity_address <$> cfgs).
Proof.
  revert s. induction cfgs as [|cfg cfgs IH]; intros s; simpl.
  - set_solver.
  - rewrite IH. set_solver.
Qed.

Lemma activeLocalAddresses_set (cCore : LinphoneCore) :
  Core.activeLocalAddresses cCore
  = {[ primary_contact_parsed cCore ]}
    ∪ list_to_set (identity_address <$> proxy_config_list cCore).
Proof. unfold Core.activeLocalAddresses. rewrite insert_loop_set. set_solver. Qed.

(** C7. [unreadCountFromActiveLocals()] builds the set made of the primary
    contact identity and of every profile identity, and returns the sum of
    the unread counts of the entities whose local address is in that set
    (counts being non-negative [int]s whose sum fits an [int]).  A profile
    whose identity is already in the set changes nothing when it is added,
    and an entity whose local address is outside the set can be dropped
    without changing the result. *)
Theorem unreadCountFromActiveLocals_is_member_sum
    (cCore : LinphoneCore) (d : CorePrivate)
    (Hcounts : Forall (λ r, 0 ≤ ChatRoom.getUnreadChatMessageCount r)
                 (filter (λ r, ChatRoom.getLocalAddress r
                               ∈ Core.activeLocalAddresses cCore) (chatRooms d)))
    (Hfits : sum_unread (filter (λ r, ChatRoom.getLocalAddress r
                                      ∈ Core.activeLocalAddresses cCore) (chatRooms d))
             ≤ INT_MAX) :
  Core.activeLocalAddresses cCore
  = {[ primary_contact_parsed cCore ]}
    ∪ list_to_set (identity_address <$> proxy_config_list cCore)
  ∧ Core.getUnreadChatMessageCountFromActiveLocals cCore d
    = Some (sum_unread (filter (λ r, ChatRoom.getLocalAddress r
                                     ∈ Core.activeLocalAddresses cCore) (chatRooms d)))
  ∧ (∀ cfg,
       identity_address cfg ∈ Core.activeLocalAddresses cCore →
       Core.getUnreadChatMessageCountFromActiveLocals (add_proxy_config cfg cCore) d
       = Core.getUnreadChatMessageCountFromActiveLocals cCore d)
  ∧ (∀ rs1 r rs2,
       chatRooms d = rs1 ++ r :: rs2 →
       ChatRoom.getLocalAddress r ∉ Core.activeLocalAddresses cCore →
       Core.getUnreadChatMessageCountFromActiveLocals cCore (set_chatRooms (rs1 ++ rs2) d)
       = Core.getUnreadChatMessageCountFromActiveLocals cCore d).
Proof.
  split; [apply activeLocalAddresses_set|]. split; [|split].
  - unfold Core.getUnreadChatMessageCountFromActiveLocals. cbv zeta.
    rewrite (count_loop_sum
               (λ r, ChatRoom.getLocalAddress r ∈ Core.activeLocalAddresses cCore));
      [f_equal; lia | done | unfold INT_MIN; lia | lia].
  - intros cfg Hin.
    assert (Core.activeLocalAddresses (add_proxy_config cfg cCore)
            = Core.activeLocalAddresses cCore) as Hsame.
    { rewrite activeLocalAddresses_set in Hin. rewrite !activeLocalAddresses_set.
      simpl. rewrite fmap_app, list_to_set_app_L. simpl. set_solver. }
    unfold Core.getUnreadChatMessageCountFromActiveLocals. by rewrite Hsame.
  - intros rs1 r rs2 Hrs Hr.
    unfold Core.getUnreadChatMessageCountFromActiveLocals. cbv zeta.
    rewrite Hrs. simpl. symmetry.
    by apply (count_loop_drop
                (λ r, ChatRoom.getLocalAddress r ∈ Core.activeLocalAddresses cCore)).
Qed.

(** The scenario of the spec: two profiles sharing bob's identity, alice as
    primary contact, one conversation each for alice, bob and carol. *)
Lemma unreadCountFromActiveLocals_is_member_sum_witness :
  Core.getUnreadChatMessageCountFromActiveLocals Sample.cCore Sample.session = Some 5.
Proof.
  destruct (unreadCountFromActiveLocals_is_member_sum Sample.cCore Sample.session)
    as (_ & Hsum & _).
  - vm_compute. repeat constructor; discriminate.
  - vm_compute. discriminate.
  - rewrite Hsum. vm_compute. reflexivity.
Defined.

(** ** Properties of the listener registry *)

Section Registry.

Context {Env : Type}.
Local Abbreviation World := (Env * CorePrivate)%type.

Variable listenerObject : CoreListener → CoreListenerMethods World.

Implicit Types (w : World) (ls : list CoreListener) (l : CoreListener).

(** The loop over the copy emits one event per element of the copy, in
    the order of the copy, whatever the callbacks do to the state. *)
Lemma for_each_listener_trace call ev ls w :
  (for_each_listener (Env:=Env) call ev ls w).2 = ev <$> ls.
Proof.
  revert w. induction ls as [|l ls IH]; intros w; [done|].
  simpl. specialize (IH (call l w)).
  destruct (for_each_listener call ev ls (call l w)) as [w2 tr].
  simpl in *. by rewrite IH.
Qed.

(** The state it leaves is the composition of the callbacks. *)
Lemma for_each_listener_state call ev ls w :
  (for_each_listener (Env:=Env) call ev ls w).1 = fold_left (λ w l, call l w) ls w.
Proof.
  revert w. induction ls as [|l ls IH]; intros w; [done|].
  simpl. specialize (IH (call l w)).
  by destruct (for_each_listener call ev ls (call l w)) as [w2 tr].
Qed.

Lemma notify_trace n w :
  (notify listenerObject n w).2 = notification_event n <$> listeners w.2.
Proof. destruct n; apply for_each_listener_trace. Qed.

(** The state a broadcast leaves is the one obtained by running the
    callbacks of the snapshot in order. *)
Lemma notify_state (n : Notification) w :
  (notify listenerObject n w).1
  = fold_left (λ w' l, notification_call listenerObject n l w') (listeners w.2) w.
Proof. destruct n; apply for_each_listener_state. Qed.

Lemma notified_fmap ev ls l :
  (∀ l', event_listener (ev l') = Some l') →
  notified l (ev <$> ls) = occurrences l ls.
Proof.
  intros Hev. unfold notified, occurrences.
  induction ls as [|l' ls IH]; [done|]. rewrite fmap_cons.
  destruct (decide (l' = l)) as [->|Hne].
  - rewrite !filter_cons_True by (by rewrite ?Hev). simpl. by rewrite IH.
  - rewrite !filter_cons_False; [done..|]. rewrite Hev. congruence.
Qed.

Lemma notification_event_listener n l :
  event_listener (notification_event n l) = Some l.
Proof. by destruct n. Qed.

Lemma occurrences_app l ls1 ls2 :
  occurrences l (ls1 ++ ls2) = (occurrences l ls1 + occurrences l ls2)%nat.
Proof. unfold occurrences. by rewrite filter_app, length_app. Qed.

Lemma occurrences_remove l ls :
  occurrences l (filter (λ l', l' ≠ l) ls) = 0%nat.
Proof.
  unfold occurrences. induction ls as [|l' ls IH]; [done|].
  destruct (decide (l' = l)) as [->|Hne].
  - by rewrite (filter_cons_False (λ l', l' ≠ l)) by (intros ?; done).
  - rewrite (filter_cons_True (λ l', l' ≠ l)) by done.
    by rewrite filter_cons_False.
Qed.

Lemma occurrences_remove_other l l' ls :
  l' ≠ l → occurrences l' (filter (λ x, x ≠ l) ls) = occurrences l' ls.
Proof.
  intros Hne. unfold occurrences. induction ls as [|x ls IH]; [done|].
  destruct (decide (x = l)) as [->|Hx].
  - rewrite (filter_cons_False (λ x, x ≠ l)) by (intros ?; done).
    by rewrite filter_cons_False by done.
  - rewrite (filter_cons_True (λ x, x ≠ l)) by done.
    destruct (decide (x = l')) as [->|Hx'].
    + rewrite !filter_cons_True by done. simpl. by rewrite IH.
    + by rewrite !filter_cons_False by done.
Qed.

Lemma occurrences_absent l ls :
  l ∉ ls → occurrences l ls = 0%nat.
Proof.
  unfold occurrences. induction ls as [|x ls IH]; intros Hl; [done|].
  apply not_elem_of_cons in Hl as [Hne Hl].
  rewrite filter_cons_False by congruence. by apply IH.
Qed.

Lemma occurrences_NoDup l ls :
  NoDup ls → l ∈ ls → occurrences l ls = 1%nat.
Proof.
  induction 1 as [|x ls Hx Hnd IH]; intros Hin.
  - by apply elem_of_nil in Hin.
  - destruct (decide (x = l)) as [->|Hne].
    + pose proof (occurrences_absent _ _ Hx) as H0. unfold occurrences in *.
      rewrite filter_cons_True by done. simpl. by rewrite H0.
    + unfold occurrences in *. rewrite filter_cons_False by done. apply IH.
      apply elem_of_cons in Hin as [->|]; done.
Qed.

End Registry.

Section RegistryClaims.

Context {Env : Type}.
Local Abbreviation World := (Env * CorePrivate)%type.

Variable listenerObject : CoreListener → CoreListenerMethods World.

(** C1. For each of the three event kinds, a broadcast calls back exactly
    the entries the registry holds when the broadcast begins, one
    callback per entry, in registration order, whatever the callbacks do
    to the registry meanwhile: the loop ranges over the copy taken before
    the first callback.  The state the broadcast leaves is the one reached
    by running the callback of each entry of that copy in turn, each on
    the state left by the one before.  A listener registered once is
    called once, a listener that is not registered is not called. *)
Theorem broadcast_over_snapshot (n : Notification) (w : World) :
  (notify listenerObject n w).2 = notification_event n <$> listeners w.2
  ∧ (notify listenerObject n w).1
    = fold_left
        (λ w' l,
           match n with
           | GlobalStateChanged state =>
               onGlobalStateChanged (listenerObject l) state w'
           | NetworkReachable sip media =>
               onNetworkReachable (listenerObject l) sip media w'
           | RegistrationStateChanged cfg state message =>
               onRegistrationStateChanged (listenerObject l) cfg state message w'
           end)
        (listeners w.2) w
  ∧ (∀ l, notified l (notify listenerObject n w).2 = occurrences l (listeners w.2))
  ∧ (∀ l, NoDup (listeners w.2) → l ∈ listeners w.2 →
          notified l (notify listenerObject n w).2 = 1%nat)
  ∧ (∀ l, l ∉ listeners w.2 → notified l (notify listenerObject n w).2 = 0%nat).
Proof.
  assert (∀ l, notified l (notify listenerObject n w).2
               = occurrences l (listeners w.2)) as Hocc.
  { intros l. rewrite notify_trace.
    apply notified_fmap, notification_event_listener. }
  split; [apply notify_trace|]. split; [|split; [done|split]].
  - rewrite notify_state. by destruct n.
  - intros l Hnd Hin. rewrite Hocc. by apply occurrences_NoDup.
  - intros l Hl. rewrite Hocc. by apply occurrences_absent.
Qed.

(** C9. [registerListener] appends without looking for duplicates, so a
    listener registered twice gets two more callbacks per broadcast;
    [unregisterListener] erases every occurrence, so the listener gets no
    callback from later broadcasts, and the other listeners are
    unaffected. *)
Theorem registry_is_a_multiset (n : Notification) (w : World) (L : CoreListener) :
  listeners (registerListener L w).2 = listeners w.2 ++ [L]
  ∧ notified L (notify listenerObject n (registerListener L (registerListener L w))).2
    = (2 + notified L (notify listenerObject n w).2)%nat
  ∧ (L ∉ listeners w.2 →
     notified L (notify listenerObject n (registerListener L (registerListener L w))).2
     = 2%nat)
  ∧ listeners (unregisterListener L w).2 = filter (λ l, l ≠ L) (listeners w.2)
  ∧ (L ∉ listeners (unregisterListener L w).2)
  ∧ notified L (notify listenerObject n (unregisterListener L w)).2 = 0%nat
  ∧ (∀ L', L' ≠ L →
       notified L' (notify listenerObject n (unregisterListener L w)).2
       = notified L' (notify listenerObject n w).2).
Proof.
  assert (∀ l w', notified l (notify listenerObject n w').2
                  = occurrences l (listeners w'.2)) as Hocc.
  { intros l w'. rewrite notify_trace.
    apply notified_fmap, notification_event_listener. }
  assert (notified L (notify listenerObject n
                        (registerListener L (registerListener L w))).2
          = (2 + notified L (notify listenerObject n w).2)%nat) as Htwice.
  { rewrite !Hocc. simpl. rewrite !occurrences_app.
    unfold occurrences at 2 3. rewrite !filter_cons_True by done. simpl. lia. }
  split; [done|]. split; [done|]. split; [|repeat split].
  - intros Hfresh. rewrite Htwice, Hocc. by rewrite occurrences_absent.
  - simpl. intros Hin. apply list_elem_of_filter in Hin as [Hne _]. done.
  - rewrite Hocc. simpl. apply occurrences_remove.
  - intros L' Hne. rewrite !Hocc. simpl. by apply occurrences_remove_other.
Qed.

(** C4. The two transitions are guarded.  Asking for the state the
    session is already in changes nothing and calls nobody.  A genuine
    transition sets the flag before the first callback and calls each
    listener of the snapshot once.  A new session is in the foreground,
    so [enterForeground] on it calls nobody.  When the callbacks leave
    the flag alone, two [enterBackground] in a row produce the callbacks
    of one. *)
Theorem execution_state_is_guarded (w : World) :
  (isInBackground w.2 = true → enterBackground listenerObject w = (w, []))
  ∧ (isInBackground w.2 = false → enterForeground listenerObject w = (w, []))
  ∧ (isInBackground w.2 = false →
       (enterBackground listenerObject w).2 = EvEnteringBackground <$> listeners w.2
       ∧ (enterBackground listenerObject w).1
         = fold_left (λ w' l, onEnteringBackground (listenerObject l) w')
             (listeners w.2) (update (set_isInBackground true) w))
  ∧ (isInBackground w.2 = true →
       (enterForeground listenerObject w).2 = EvEnteringForeground <$> listeners w.2
       ∧ (enterForeground listenerObject w).1
         = fold_left (λ w' l, onEnteringForeground (listenerObject l) w')
             (listeners w.2) (update (set_isInBackground false) w))
  ∧ ((∀ l w', isInBackground (onEnteringBackground (listenerObject l) w').2
              = isInBackground w'.2) →
     isInBackground w.2 = false →
       let '(w1, tr1) := enterBackground listenerObject w in
       let '(w2, tr2) := enterBackground listenerObject w1 in
       isInBackground w1.2 = true
       ∧ w2 = w1
       ∧ tr2 = []
       ∧ tr1 ++ tr2 = EvEnteringBackground <$> listeners w.2)
  ∧ (isInBackground CorePrivate_new = false
     ∧ ∀ env, enterForeground listenerObject (env, CorePrivate_new)
              = ((env, CorePrivate_new), [])).
Proof.
  unfold enterBackground, enterForeground,
    notifyEnteringBackground, notifyEnteringForeground.
  split; [by intros ->|]. split; [by intros ->|].
  split; [|split; [|split]].
  - intros ->. cbv zeta. split.
    + apply for_each_listener_trace.
    + apply for_each_listener_state.
  - intros ->. cbv zeta. split.
    + apply for_each_listener_trace.
    + apply for_each_listener_state.
  - intros Hkeep Hfg. rewrite Hfg. cbv zeta.
    pose proof (for_each_listener_trace
                  (λ l, onEnteringBackground (listenerObject l))
                  EvEnteringBackground
                  (listeners (update (set_isInBackground true) w).2)
                  (update (set_isInBackground true) w)) as Htr.
    pose proof (for_each_listener_state
                  (λ l, onEnteringBackground (listenerObject l))
                  EvEnteringBackground
                  (listeners (update (set_isInBackground true) w).2)
                  (update (set_isInBackground true) w)) as Hst.
    destruct (for_each_listener _ _ _ _) as [w1 tr1]. simpl in Htr, Hst.
    assert (isInBackground w1.2 = true) as Hbg.
    { rewrite Hst. clear Hst Htr.
      generalize (listeners w.2). intros ls.
      assert (isInBackground (update (set_isInBackground true) w).2 = true)
        as Hinit by done.
      revert Hinit. generalize (update (set_isInBackground true) w).
      induction ls as [|l ls IH]; intros w0 Hw0; [done|].
      simpl. apply IH. by rewrite Hkeep. }
    rewrite Hbg. split; [done|]. split; [done|]. split; [done|].
    rewrite app_nil_r. exact Htr.
  - done.
Qed.

End RegistryClaims.

(** ** Properties of the teardown *)

Section Teardown.

Context {Env : Type}.
Local Abbreviation World := (Env * CorePrivate)%type.

Variable Call_terminate : Call → World → World.
Variable linphone_core_iterate : World → World.
Variable clearSipAddressesCache : Env → Env.

Local Abbreviation drain := (uninit_drain Call_terminate linphone_core_iterate).
Local Abbreviation pass := (drain_pass Call_terminate linphone_core_iterate).
Local Abbreviation body := (drain_body Call_terminate linphone_core_iterate).
Local Abbreviation Run := (DrainRun Call_terminate linphone_core_iterate).

Implicit Types (w : World) (tr : list Event) (fuel : nat).

(** A run that the fuelled loop completes is a run of the loop. *)
Lemma drain_sound fuel w w' tr :
  drain fuel w = Some (w', tr) → Run w tr w'.
Proof.
  revert w w' tr. induction fuel as [|fuel IH]; intros w w' tr; simpl.
  - destruct (calls w.2) eqn:Hc; [|done].
    intros [= <- <-]. by constructor.
  - destruct (calls w.2) as [|front rest] eqn:Hc.
    + intros [= <- <-]. by constructor.
    + destruct (drain fuel (body w front)) as [[w1 tr1]|] eqn:Hd; [|done].
      simpl. intros [= <- <-]. econstructor; [done|]. by apply IH.
Qed.

(** The loop only stops on an empty active-call collection. *)
Lemma DrainRun_calls_empty w tr w' : Run w tr w' → calls w'.2 = [].
Proof. induction 1; done. Qed.

(** The events of a run come in groups of three, one group per pass:
    terminate, tick, sleep. *)
Lemma DrainRun_events w tr w' :
  Run w tr w' → ∃ fronts, tr = fronts ≫= drain_events.
Proof.
  induction 1 as [w Hc|w front rest tr w' Hc _ [fronts ->]].
  - by exists [].
  - by exists (front :: fronts).
Qed.

(** Every run is found by the fuelled loop, given fuel for its passes. *)
Lemma drain_complete w tr w' :
  Run w tr w' → ∃ fuel, drain fuel w = Some (w', tr).
Proof.
  induction 1 as [w Hc|w front rest tr w' Hc _ [fuel IH]].
  - exists 0%nat. simpl. by rewrite Hc.
  - exists (S fuel). simpl. rewrite Hc, IH. done.
Qed.

(** More fuel does not change a result. *)
Lemma drain_fuel_mono fuel fuel' w w' tr :
  (fuel ≤ fuel')%nat → drain fuel w = Some (w', tr) → drain fuel' w = Some (w', tr).
Proof.
  revert fuel' w w' tr. induction fuel as [|fuel IH]; intros fuel' w w' tr Hle; simpl.
  - destruct (calls w.2) eqn:Hc; [|done]. intros [= <- <-].
    destruct fuel'; simpl; by rewrite Hc.
  - destruct fuel' as [|fuel']; [lia|]. simpl.
    destruct (calls w.2) as [|front rest] eqn:Hc; [done|].
    destruct (drain fuel (body w front)) as [[w1 tr1]|] eqn:Hd; [|done].
    simpl. intros [= <- <-]. by rewrite (IH fuel' _ _ _ ltac:(lia) Hd).
Qed.

(** While calls remain after every number of passes, the loop is still
    running whatever the fuel. *)
Lemma drain_blocks fuel w :
  (∀ k, calls (Nat.iter k pass w).2 ≠ []) → drain fuel w = None.
Proof.
  revert w. induction fuel as [|fuel IH]; intros w Hstuck; simpl.
  - pose proof (Hstuck 0%nat) as H0. simpl in H0. by destruct (calls w.2).
  - pose proof (Hstuck 0%nat) as H0. simpl in H0.
    destruct (calls w.2) as [|front rest] eqn:Hc; [done|].
    rewrite IH; [done|]. intros k. specialize (Hstuck (S k)).
    rewrite Nat.iter_succ_r in Hstuck. unfold drain_pass at 2 in Hstuck.
    by rewrite Hc in Hstuck.
Qed.

(** When every pass shortens the active-call collection, as many passes
    as there are calls suffice. *)
Lemma drain_terminates w :
  (∀ w0 front rest, calls w0.2 = front :: rest →
     (length (calls (body w0 front).2) < length (calls w0.2))%nat) →
  ∃ w' tr, drain (length (calls w.2)) w = Some (w', tr).
Proof.
  intros Hprogress.
  assert (∀ fuel w, (length (calls w.2) ≤ fuel)%nat →
                    ∃ w' tr, drain fuel w = Some (w', tr)) as Hgen.
  { clear w. induction fuel as [|fuel IH]; intros w Hlen; simpl.
    - destruct (calls w.2); [eauto|simpl in Hlen; lia].
    - destruct (calls w.2) as [|front rest] eqn:Hc; [eauto|].
      pose proof (Hprogress w front rest Hc) as Hlt. rewrite Hc in Hlt.
      simpl in Hlt, Hlen.
      destruct (IH (body w front) ltac:(lia)) as (w' & tr & ->). simpl. eauto. }
  by apply Hgen.
Qed.

(** The fuel bounds the number of passes. *)
Lemma drain_passes fuel w w' tr :
  drain fuel w = Some (w', tr) →
  ∃ fronts, tr = fronts ≫= drain_events ∧ (length fronts ≤ fuel)%nat.
Proof.
  revert w w' tr. induction fuel as [|fuel IH]; intros w w' tr; simpl.
  - destruct (calls w.2); [|done]. intros [= <- <-]. by exists [].
  - destruct (calls w.2) as [|front rest]; [intros [= <- <-]; exists []; simpl; split; [done|lia]|].
    destruct (drain fuel (body w front)) as [[w1 tr1]|] eqn:Hd; [|done].
    simpl. intros [= <- <-]. destruct (IH _ _ _ Hd) as (fronts & -> & Hlen).
    exists (front :: fronts). simpl. split; [done|lia].
Qed.

(** The state a completed drain stops in is reached from the initial one
    by a termination request followed by a tick for each pass, and the
    call each pass works on is the first of the collection at that
    moment. *)
Lemma drain_states fuel w w' tr :
  drain fuel w = Some (w', tr) →
  ∃ fronts,
    tr = fronts ≫= drain_events
    ∧ (length fronts ≤ fuel)%nat
    ∧ w' = fold_left (λ w0 front, linphone_core_iterate (Call_terminate front w0))
             fronts w
    ∧ (∀ i front, fronts !! i = Some front →
         ∃ rest,
           calls (fold_left
                    (λ w0 front, linphone_core_iterate (Call_terminate front w0))
                    (take i fronts) w).2 = front :: rest).
Proof.
  revert w w' tr. induction fuel as [|fuel IH]; intros w w' tr; simpl.
  - destruct (calls w.2); [|done]. intros [= <- <-]. exists [].
    repeat split; [simpl; lia|]. by intros i front.
  - destruct (calls w.2) as [|front rest] eqn:Hc.
    + intros [= <- <-]. exists []. repeat split; [simpl; lia|]. by intros i front'.
    + destruct (drain fuel (body w front)) as [[w1 tr1]|] eqn:Hd; [|done].
      simpl. intros [= <- <-].
      destruct (IH _ _ _ Hd) as (fronts & -> & Hlen & -> & Hheads).
      exists (front :: fronts). repeat split; [simpl; lia|].
      intros [|i] front'; simpl.
      * intros [= <-]. by exists rest.
      * apply Hheads.
Qed.

(** C2. [uninit] returns only from an empty active-call collection.  A
    result of [uninit] comes from a finite number of passes of the drain
    loop followed by the release of the remaining state: every pass calls
    [terminate] on the first call of the collection as it then stands,
    then [linphone_core_iterate], then sleeps 10000 microseconds, and the
    passes end on an empty collection.  While calls remain after every
    number of passes, [uninit] does not return.  With N active calls and
    a call stack that lets every pass shorten the collection, [uninit]
    returns after at most N passes. *)
Theorem uninit_returns_only_when_drained (w : World) :
  (∀ fuel w' tr,
     uninit Call_terminate linphone_core_iterate clearSipAddressesCache fuel w
     = Some (w', tr) →
     ∃ fronts,
       (∀ i front, fronts !! i = Some front →
          ∃ rest,
            calls (fold_left
                     (λ w0 front, linphone_core_iterate (Call_terminate front w0))
                     (take i fronts) w).2 = front :: rest)
       ∧ calls (fold_left
                  (λ w0 front, linphone_core_iterate (Call_terminate front w0))
                  fronts w).2 = []
       ∧ tr = (fronts ≫= (λ front, [EvTerminate front; EvIterate; EvUsleep (10 * 1000)]))
              ++ [EvClearSipAddressesCache]
       ∧ w' = uninit_release clearSipAddressesCache
                (fold_left
                   (λ w0 front, linphone_core_iterate (Call_terminate front w0))
                   fronts w)
       ∧ calls w'.2 = [] ∧ chatRooms w'.2 = [])
  ∧ ((∀ k, calls (Nat.iter k
                    (λ w0, match calls w0.2 with
                           | [] => w0
                           | front :: _ =>
                               linphone_core_iterate (Call_terminate front w0)
                           end) w).2 ≠ []) →
     ∀ fuel,
       uninit Call_terminate linphone_core_iterate clearSipAddressesCache fuel w = None)
  ∧ ((∀ w0 front rest, calls w0.2 = front :: rest →
        (length (calls (linphone_core_iterate (Call_terminate front w0)).2)
         < length (calls w0.2))%nat) →
     ∃ w' tr fronts,
       uninit Call_terminate linphone_core_iterate clearSipAddressesCache
         (length (calls w.2)) w = Some (w', tr)
       ∧ tr = (fronts ≫= (λ front, [EvTerminate front; EvIterate; EvUsleep (10 * 1000)]))
              ++ [EvClearSipAddressesCache]
       ∧ (length fronts ≤ length (calls w.2))%nat
       ∧ w' = uninit_release clearSipAddressesCache
                (fold_left
                   (λ w0 front, linphone_core_iterate (Call_terminate front w0))
                   fronts w)
       ∧ calls w'.2 = []).
Proof.
  unfold uninit. split; [|split].
  - intros fuel w' tr Hu.
    destruct (drain fuel w) as [[w1 tr1]|] eqn:Hd; [|done].
    simpl in Hu. injection Hu as <- <-.
    pose proof (DrainRun_calls_empty _ _ _ (drain_sound _ _ _ _ Hd)) as Hempty.
    destruct (drain_states _ _ _ _ Hd) as (fronts & -> & _ & -> & Hheads).
    exists fronts. by repeat split.
  - intros Hstuck fuel. by rewrite drain_blocks.
  - intros Hprogress.
    destruct (drain_terminates w Hprogress) as (w1 & tr1 & Hd).
    pose proof (DrainRun_calls_empty _ _ _ (drain_sound _ _ _ _ Hd)) as Hempty.
    destruct (drain_states _ _ _ _ Hd) as (fronts & -> & Hlen & -> & _).
    rewrite Hd. simpl. by eexists _, _, fronts.
Qed.

End Teardown.

(** ** Properties of the start-up *)

Lemma strcmp_sign_refl (a : string) : strcmp_sign a a = 0.
Proof. induction a as [|c a IH]; simpl; [done|]. by rewrite decide_True. Qed.

(** [strcmp] answers 0 on equal strings only; the comparison is
    case-sensitive. *)
Lemma strcmp_sign_zero (a b : string) : strcmp_sign a b = 0 ↔ a = b.
Proof.
  split; [|intros ->; apply strcmp_sign_refl].
  revert b. induction a as [|c a IH]; intros [|c' b]; simpl; try done.
  destruct (decide (c = c')) as [->|Hne].
  - intros Hab. f_equal. by apply IH.
  - by destruct (decide _).
Qed.

Lemma empty_true (s : string) : empty s = true ↔ s = "".
Proof. by destruct s. Qed.

(** The part of C5 that holds.  With a non-empty URI and a [backend] key
    in the configuration, the URI is used as it is and the backend is
    Mysql exactly when the key's value is the string "mysql"; without a
    URI, or with an empty one, the backend is Sqlite3 and the URI is the
    data directory followed by "linphone.db". *)
Lemma init_storage_resolution (cCore : LinphoneCore) :
  (∀ uri backend,
     config cCore !! ("storage", "uri") = Some uri → uri ≠ "" →
     config cCore !! ("storage", "backend") = Some backend →
     init_storage cCore
     = Returned (if decide (backend = "mysql")
                 then AbstractDb.Mysql else AbstractDb.Sqlite3, uri))
  ∧ (config cCore !! ("storage", "uri") = None
     ∨ config cCore !! ("storage", "uri") = Some "" →
     init_storage cCore = Returned (AbstractDb.Sqlite3, dataPath cCore +:+ "linphone.db")).
Proof.
  unfold init_storage, lp_config_get_string. split.
  - intros uri backend -> Hne ->. simpl.
    destruct (empty uri) eqn:He; [by apply empty_true in He|]. simpl. f_equal.
    destruct (decide (backend = "mysql")) as [->|Hb].
    + by rewrite decide_True by apply strcmp_sign_refl.
    + rewrite decide_False; [done|]. by rewrite strcmp_sign_zero.
  - by intros [-> | ->].
Qed.

(** C5, where the code departs from it.  A configuration that sets the
    storage URI to "foo" and has no [backend] key makes [init] hand the
    null pointer answered by [lp_config_get_string] to [strcmp]: the
    behaviour is undefined, where the claim promises the Sqlite3 backend
    with URI "foo". *)
Theorem init_storage_uri_without_backend :
  Sample.config_foo_only !! ("storage", "uri") = Some "foo"
  ∧ Sample.config_foo_only !! ("storage", "backend") = None
  ∧ init_storage (Sample.with_config Sample.config_foo_only) = Undefined
  ∧ init_storage (Sample.with_config Sample.config_foo_only)
    ≠ Returned (AbstractDb.Sqlite3, "foo").
Proof. vm_compute. by repeat split. Qed.

(** The examples of the spec that the code does meet. *)
Example init_storage_foo_othervalue :
  init_storage (Sample.with_config Sample.config_foo_othervalue)
  = Returned (AbstractDb.Sqlite3, "foo").
Proof. by vm_compute. Qed.

Example init_storage_foo_mysql :
  init_storage (Sample.with_config Sample.config_foo_mysql)
  = Returned (AbstractDb.Mysql, "foo").
Proof. by vm_compute. Qed.

Example init_storage_no_uri :
  init_storage Sample.cCore = Returned (AbstractDb.Sqlite3, "/data/linphone.db").
Proof. by vm_compute. Qed.

Section Startup.

Context {Env : Type}.
Local Abbreviation World := (Env * CorePrivate)%type.

Variable MainDb_connect : AbstractDb.Backend → string → MainDb.t → bool * MainDb.t.
Variable loadChatRooms : World → World.

(** C6. When the storage connection cannot be opened, [init] ends in
    the fatal report "Unable to open linphone database." instead of
    returning, and the persisted conversations are not loaded: the trace
    stops at the connection attempt. *)
Theorem init_aborts_when_storage_cannot_open
    (cCore : LinphoneCore) (w : World) (backend : AbstractDb.Backend) (uri : string)
    (Hstorage : init_storage cCore = Returned (backend, uri))
    (Hconnect : (MainDb_connect backend uri MainDb_new).1 = false) :
  init MainDb_connect loadChatRooms cCore w
  = ([EvInfo ("Opening linphone database: " +:+ uri); EvConnect backend uri],
     Aborted "Unable to open linphone database.")
  ∧ (EvLoadChatRooms ∉ (init MainDb_connect loadChatRooms cCore w).1)
  ∧ ∀ w', (init MainDb_connect loadChatRooms cCore w).2 ≠ Returned w'.
Proof.
  assert (init MainDb_connect loadChatRooms cCore w
          = ([EvInfo ("Opening linphone database: " +:+ uri); EvConnect backend uri],
             Aborted "Unable to open linphone database.")) as Hinit.
  { unfold init. rewrite Hstorage. simpl.
    destruct (MainDb_connect backend uri MainDb_new) as [connected db].
    simpl in Hconnect. by subst connected. }
  rewrite Hinit. split; [done|]. split; [|done].
  simpl. intros Hin. apply elem_of_cons in Hin as [?|Hin]; [done|].
  apply elem_of_cons in Hin as [?|Hin]; [done|]. by apply elem_of_nil in Hin.
Qed.

(** For contrast: when the connection opens, [init] goes on to load the
    persisted conversations and returns. *)
Lemma init_loads_when_storage_opens
    (cCore : LinphoneCore) (w : World) (backend : AbstractDb.Backend) (uri : string)
    (Hstorage : init_storage cCore = Returned (backend, uri))
    (Hconnect : (MainDb_connect backend uri MainDb_new).1 = true) :
  ∃ w', init MainDb_connect loadChatRooms cCore w
        = ([EvInfo ("Opening linphone database: " +:+ uri); EvConnect backend uri;
            EvLoadChatRooms],
           Returned (loadChatRooms w')).
Proof.
  unfold init. rewrite Hstorage. simpl.
  destruct (MainDb_connect backend uri MainDb_new) as [connected db].
  simpl in Hconnect. subst connected. simpl. eauto.
Qed.

End Startup.

(** ** The statements on the sample session *)

(** Listener 1 unregisters itself and registers listener 3 from within
    its callback: the broadcast in progress still calls 1 then 2, and not
    3; the registry it leaves behind holds 2 and 3. *)
Lemma broadcast_over_snapshot_witness :
  (notify Sample.listenerObject (GlobalStateChanged 1) Sample.world).2
  = [EvGlobalStateChanged 1 1; EvGlobalStateChanged 2 1]
  ∧ notified 1 (notify Sample.listenerObject (GlobalStateChanged 1) Sample.world).2 = 1%nat
  ∧ notified 3 (notify Sample.listenerObject (GlobalStateChanged 1) Sample.world).2 = 0%nat
  ∧ listeners (notify Sample.listenerObject (GlobalStateChanged 1) Sample.world).1.2
    = [2; 3]%positive.
Proof.
  destruct (broadcast_over_snapshot Sample.listenerObject (GlobalStateChanged 1)
              Sample.world) as (Htrace & Hstate & _ & Honce & Hnone).
  split; [exact Htrace|]. split; [|split].
  - apply Honce; vm_compute.
    + repeat constructor; set_solver.
    + set_solver.
  - apply Hnone. vm_compute. set_solver.
  - rewrite Hstate. reflexivity.
Defined.

(** Listener 5 registered twice on top of the sample registry is called
    twice; once unregistered it is not called any more. *)
Lemma registry_is_a_multiset_witness :
  notified 5 (notify Sample.listenerObject (NetworkReachable true false)
                (registerListener 5 (registerListener 5 Sample.world))).2 = 2%nat
  ∧ notified 5 (notify Sample.listenerObject (NetworkReachable true false)
                  (unregisterListener 5
                     (registerListener 5 (registerListener 5 Sample.world)))).2 = 0%nat.
Proof.
  split.
  - destruct (registry_is_a_multiset Sample.listenerObject (NetworkReachable true false)
                Sample.world 5%positive) as (_ & Htwice & _).
    rewrite Htwice. reflexivity.
  - destruct (registry_is_a_multiset Sample.listenerObject (NetworkReachable true false)
                (registerListener 5 (registerListener 5 Sample.world)) 5%positive)
      as (_ & _ & _ & _ & _ & Hgone & _).
    exact Hgone.
Defined.

(** The sample listeners only touch the registry. *)
Lemma sample_listeners_keep_flag l (w : Sample.Env * CorePrivate) :
  isInBackground (onEnteringBackground (Sample.listenerObject l) w).2
  = isInBackground w.2.
Proof. unfold Sample.listenerObject. by destruct (decide _). Qed.

(** Two [enterBackground] in a row on the sample session (in the
    foreground, listeners 1 and 2): one callback per listener in all. *)
Lemma execution_state_is_guarded_witness :
  isInBackground Sample.world.2 = false
  ∧ let '(w1, tr1) := enterBackground Sample.listenerObject Sample.world in
    let '(w2, tr2) := enterBackground Sample.listenerObject w1 in
    isInBackground w1.2 = true
    ∧ w2 = w1
    ∧ tr2 = []
    ∧ tr1 ++ tr2 = [EvEnteringBackground 1; EvEnteringBackground 2].
Proof.
  split; [reflexivity|].
  destruct (execution_state_is_guarded Sample.listenerObject Sample.world)
    as (_ & _ & _ & _ & Htwice & _).
  exact (Htwice sample_listeners_keep_flag eq_refl).
Defined.

(** On the sample call stack every pass removes the call whose termination
    it requested. *)
Lemma sample_stack_progress (w0 : Sample.Env * CorePrivate) front rest :
  calls w0.2 = front :: rest →
  (length (calls (drain_body Sample.Call_terminate Sample.linphone_core_iterate
                    w0 front).2)
   < length (calls w0.2))%nat.
Proof.
  intros Hc. unfold drain_body, Sample.linphone_core_iterate, Sample.Call_terminate.
  simpl. rewrite Hc. rewrite filter_cons_False by (intros Hn; apply Hn; set_solver).
  simpl. apply Nat.lt_succ_r, length_filter.
Qed.

(** The sample session has two active calls, 7 and 8: [uninit] returns
    after two passes, the first on call 7 and the second on call 8, with
    no call left. *)
Lemma uninit_returns_only_when_drained_witness :
  ∃ w' tr fronts,
    uninit Sample.Call_terminate Sample.linphone_core_iterate
      Sample.clearSipAddressesCache 2 Sample.world = Some (w', tr)
    ∧ tr = (fronts ≫= (λ front, [EvTerminate front; EvIterate; EvUsleep (10 * 1000)]))
           ++ [EvClearSipAddressesCache]
    ∧ (length fronts ≤ 2)%nat
    ∧ w' = uninit_release Sample.clearSipAddressesCache
             (fold_left
                (λ w0 front, Sample.linphone_core_iterate (Sample.Call_terminate front w0))
                fronts Sample.world)
    ∧ calls w'.2 = [].
Proof.
  destruct (uninit_returns_only_when_drained Sample.Call_terminate
              Sample.linphone_core_iterate Sample.clearSipAddressesCache Sample.world)
    as (_ & _ & Hlive).
  exact (Hlive sample_stack_progress).
Defined.

Example uninit_sample_trace :
  snd <$> uninit Sample.Call_terminate Sample.linphone_core_iterate
            Sample.clearSipAddressesCache 2 Sample.world
  = Some [EvTerminate 7; EvIterate; EvUsleep 10000;
          EvTerminate 8; EvIterate; EvUsleep 10000;
          EvClearSipAddressesCache].
Proof. reflexivity. Qed.

(** With a call stack that never lets go of a call, [uninit] is still in
    its loop whatever the fuel. *)
Example uninit_sample_stuck fuel :
  uninit Sample.Call_terminate Sample.stuck_iterate
    Sample.clearSipAddressesCache fuel Sample.world = None.
Proof.
  unfold uninit. rewrite drain_blocks; [done|]. intros k.
  assert (calls (Nat.iter k (drain_pass Sample.Call_terminate Sample.stuck_iterate)
                   Sample.world).2 = [7; 8]%positive) as ->; [|done].
  induction k as [|k IH]; [done|]. simpl. unfold drain_pass at 1. by rewrite IH.
Qed.

(** The sample storage that cannot be opened, with URI "foo" and backend
    "othervalue": [init] stops at the fatal report. *)
Lemma init_aborts_when_storage_cannot_open_witness :
  init Sample.connect_fails Sample.loadChatRooms
    (Sample.with_config Sample.config_foo_othervalue) Sample.world
  = ([EvInfo "Opening linphone database: foo"; EvConnect AbstractDb.Sqlite3 "foo"],
     Aborted "Unable to open linphone database.").
Proof.
  apply (init_aborts_when_storage_cannot_open Sample.connect_fails Sample.loadChatRooms
           (Sample.with_config Sample.config_foo_othervalue) Sample.world
           AbstractDb.Sqlite3 "foo").
  - vm_compute. reflexivity.
  - reflexivity.
Defined.

Example init_sample_opens :
  (init Sample.connect_succeeds Sample.loadChatRooms
     (Sample.with_config Sample.config_foo_othervalue) Sample.world).1
  = [EvInfo "Opening linphone database: foo"; EvConnect AbstractDb.Sqlite3 "foo";
     EvLoadChatRooms].
Proof. vm_compute. reflexivity. Qed.

(** ** Further properties of the listener registry *)

Lemma set_listeners_same (d : CorePrivate) : set_listeners (listeners d) d = d.
Proof. by destruct d. Qed.

Lemma remove_absent (L : CoreListener) (ls : list CoreListener) :
  L ∉ ls → filter (λ l, l ≠ L) ls = ls.
Proof.
  induction ls as [|x ls IH]; intros Hl; [done|].
  apply not_elem_of_cons in Hl as [Hne Hl].
  rewrite filter_cons_True by congruence. by rewrite IH.
Qed.

Lemma remove_remove (L1 L2 : CoreListener) (ls : list CoreListener) :
  filter (λ l, l ≠ L1) (filter (λ l, l ≠ L2) ls)
  = filter (λ l, l ≠ L2) (filter (λ l, l ≠ L1) ls).
Proof.
  induction ls as [|x ls IH]; [done|].
  destruct (decide (x = L1)) as [H1|H1]; destruct (decide (x = L2)) as [H2|H2].
  - rewrite (filter_cons_False (λ l, l ≠ L2)) by (intros ?; done).
    by rewrite (filter_cons_False (λ l, l ≠ L1)) by (intros ?; done).
  - rewrite (filter_cons_True (λ l, l ≠ L2)) by done.
    by rewrite !(filter_cons_False (λ l, l ≠ L1)) by (intros ?; done).
  - rewrite (filter_cons_True (λ l, l ≠ L1)) by done.
    by rewrite !(filter_cons_False (λ l, l ≠ L2)) by (intros ?; done).
  - rewrite (filter_cons_True (λ l, l ≠ L2)) by done.
    rewrite !(filter_cons_True (λ l, l ≠ L1)) by done.
    rewrite (filter_cons_True (λ l, l ≠ L2)) by done. by rewrite IH.
Qed.

Lemma remove_not_elem (L : CoreListener) (ls : list CoreListener) :
  L ∉ filter (λ l, l ≠ L) ls.
Proof. intros Hin. by apply list_elem_of_filter in Hin as [Hne _]. Qed.

Section RegistryAlgebra.

Context {Env : Type}.
Local Abbreviation World := (Env * CorePrivate)%type.

Variable listenerObject : CoreListener → CoreListenerMethods World.

Implicit Types (w : World) (L : CoreListener).

(** Unregistering a listener right after registering it is the same as
    just unregistering it: the earlier registrations of that listener go
    too.  When the listener was not registered before, the session is back
    where it was. *)
Theorem unregister_after_register L w :
  unregisterListener L (registerListener L w) = unregisterListener L w
  ∧ (L ∉ listeners w.2 → unregisterListener L (registerListener L w) = w).
Proof.
  assert (unregisterListener L (registerListener L w) = unregisterListener L w) as Heq.
  { destruct w as [env d]. unfold unregisterListener, registerListener, update. simpl.
    rewrite filter_app, (filter_cons_False (λ l, l ≠ L)) by (intros ?; done).
    rewrite filter_nil, app_nil_r. by destruct d. }
  split; [done|]. intros Hfresh. rewrite Heq.
  destruct w as [env d]. unfold unregisterListener, update. simpl in *.
  by rewrite remove_absent, set_listeners_same.
Qed.

(** Unregistering is idempotent, two unregistrations commute, and
    unregistering a listener that is not registered changes nothing. *)
Theorem unregister_idempotent_and_commutes L1 L2 w :
  unregisterListener L1 (unregisterListener L1 w) = unregisterListener L1 w
  ∧ unregisterListener L1 (unregisterListener L2 w)
    = unregisterListener L2 (unregisterListener L1 w)
  ∧ (L1 ∉ listeners w.2 → unregisterListener L1 w = w).
Proof.
  destruct w as [env d]. unfold unregisterListener, update. simpl.
  split; [|split].
  - by rewrite (remove_absent L1 (filter _ _)) by apply remove_not_elem.
  - by rewrite remove_remove.
  - intros Hfresh. by rewrite remove_absent, set_listeners_same.
Qed.

(** Listeners registered later are called later: registering [L1] then
    [L2] extends every later broadcast by the callback of [L1] followed by
    that of [L2], after the callbacks of the listeners already there.  The
    state the broadcast leaves is the one reached by running the callbacks
    of the listeners already there, then that of [L1], then that of
    [L2]. *)
Theorem register_extends_broadcast (n : Notification) L1 L2 w :
  (notify listenerObject n (registerListener L2 (registerListener L1 w))).2
  = (notify listenerObject n w).2
    ++ [notification_event n L1; notification_event n L2]
  ∧ (notify listenerObject n (registerListener L2 (registerListener L1 w))).1
    = notification_call listenerObject n L2
        (notification_call listenerObject n L1
           (fold_left (λ w' l, notification_call listenerObject n l w')
              (listeners w.2)
              (registerListener L2 (registerListener L1 w)))).
Proof.
  split.
  - rewrite !notify_trace. simpl. rewrite !fmap_app. simpl.
    by rewrite <- app_assoc.
  - rewrite notify_state. simpl. by rewrite !fold_left_app.
Qed.

Lemma fold_callbacks_invariant (I : World → Prop) (call : CoreListener → World → World)
    (ls : list CoreListener) w :
  (∀ l w', I w' → I (call l w')) → I w → I (fold_left (λ w' l, call l w') ls w).
Proof.
  intros Hcall. revert w. induction ls as [|l ls IH]; intros w Hw; [done|].
  simpl. by apply IH, Hcall.
Qed.

(** A broadcast changes the session only through the callbacks: whatever
    every callback preserves, the broadcast preserves. *)
Theorem broadcast_preserves_invariant (I : World → Prop) (n : Notification) w
    (Hcallbacks : ∀ l w', I w' → I (notification_call listenerObject n l w'))
    (Hbefore : I w) :
  I (notify listenerObject n w).1.
Proof. rewrite notify_state. by apply fold_callbacks_invariant. Qed.

End RegistryAlgebra.

(** Listener 9 is not registered in the sample session. *)
Lemma unregister_after_register_witness :
  unregisterListener 9 (registerListener 9 Sample.world) = Sample.world.
Proof.
  apply (unregister_after_register 9%positive Sample.world).
  vm_compute. set_solver.
Defined.

Lemma unregister_idempotent_and_commutes_witness :
  unregisterListener 9 Sample.world = Sample.world.
Proof.
  apply (unregister_idempotent_and_commutes 9%positive 1%positive Sample.world).
  vm_compute. set_solver.
Defined.

(** The sample callbacks touch the registry only: the calls, the
    conversations and the execution state come out of a broadcast as they
    went in. *)
Lemma broadcast_preserves_invariant_witness :
  calls (notify Sample.listenerObject (GlobalStateChanged 1) Sample.world).1.2
  = [7; 8]%positive.
Proof.
  apply (broadcast_preserves_invariant Sample.listenerObject
           (λ w, calls w.2 = [7; 8]%positive) (GlobalStateChanged 1) Sample.world).
  - intros l w' Hw'. simpl. unfold Sample.listenerObject.
    destruct (decide _); done.
  - reflexivity.
Defined.

(** ** Further properties of the execution state *)





Section ExecutionState.

Context {Env : Type}.
Local Abbreviation World := (Env * CorePrivate)%type.

Variable listenerObject : CoreListener → CoreListenerMethods World.

Implicit Types (w : World) (l : CoreListener).





Lemma enterBackground_flag w :
  (∀ l w', isInBackground (onEnteringBackground (listenerObject l) w').2
           = isInBackground w'.2) →
  isInBackground (enterBackground listenerObject w).1.2 = true.
Proof.
  intros Hkeep. unfold enterBackground, notifyEnteringBackground.
  destruct (isInBackground w.2) eqn:Hflag; [done|]. cbv zeta.
  rewrite for_each_listener_state.
  apply (fold_callbacks_invariant (λ w', isInBackground w'.2 = true)); [|done].
  intros l w' Hw'. by rewrite Hkeep.
Qed.

Lemma enterForeground_flag w :
  (∀ l w', isInBackground (onEnteringForeground (listenerObject l) w').2
           = isInBackground w'.2) →
  isInBackground (enterForeground listenerObject w).1.2 = false.
Proof.
  intros Hkeep. unfold enterForeground, notifyEnteringForeground.
  destruct (isInBackground w.2) eqn:Hflag; [|done]. cbn [negb]. cbv zeta.
  rewrite for_each_listener_state.
  apply (fold_callbacks_invariant (λ w', isInBackground w'.2 = false)); [|done].
  intros l w' Hw'. by rewrite Hkeep.
Qed.

(** Whatever state the session starts in, it is in the background after
    [enterBackground] and in the foreground after [enterForeground], and
    asking again right away changes nothing and calls nobody, as long as
    the callbacks leave the flag alone. *)
Theorem transition_reaches_its_state w
    (Hbg : ∀ l w', isInBackground (onEnteringBackground (listenerObject l) w').2
                   = isInBackground w'.2)
    (Hfg : ∀ l w', isInBackground (onEnteringForeground (listenerObject l) w').2
                   = isInBackground w'.2) :
  isInBackground (enterBackground listenerObject w).1.2 = true
  ∧ isInBackground (enterForeground listenerObject w).1.2 = false
  ∧ enterBackground listenerObject (enterBackground listenerObject w).1
    = ((enterBackground listenerObject w).1, [])
  ∧ enterForeground listenerObject (enterForeground listenerObject w).1
    = ((enterForeground listenerObject w).1, []).
Proof.
  pose proof (enterBackground_flag w Hbg) as Hb.
  pose proof (enterForeground_flag w Hfg) as Hf.
  split; [done|]. split; [done|]. split.
  - unfold enterBackground at 1, notifyEnteringBackground at 1. by rewrite Hb.
  - unfold enterForeground at 1, notifyEnteringForeground at 1. by rewrite Hf.
Qed.


End ExecutionState.

Lemma sample_listeners_keep_flag_fg l (w : Sample.Env * CorePrivate) :
  isInBackground (onEnteringForeground (Sample.listenerObject l) w).2
  = isInBackground w.2.
Proof. unfold Sample.listenerObject. by destruct (decide _). Qed.

(** The sample session, whose listener 1 rewrites the registry from its
    callbacks, is in the background after [enterBackground], and a second
    [enterBackground] calls nobody. *)
Lemma transition_reaches_its_state_witness :
  isInBackground (enterBackground Sample.listenerObject Sample.world).1.2 = true
  ∧ (enterBackground Sample.listenerObject
       (enterBackground Sample.listenerObject Sample.world).1).2 = [].
Proof.
  destruct (transition_reaches_its_state Sample.listenerObject Sample.world)
    as (Hflag & _ & Hagain & _).
  - intros l w'. unfold Sample.listenerObject. by destruct (decide _).
  - apply sample_listeners_keep_flag_fg.
  - split; [exact Hflag|]. by rewrite Hagain.
Defined.


(** ** Further properties of the teardown *)

Section TeardownEffects.

Context {Env : Type}.
Local Abbreviation World := (Env * CorePrivate)%type.

Variable Call_terminate : Call → World → World.
Variable linphone_core_iterate : World → World.
Variable clearSipAddressesCache : Env → Env.

Local Abbreviation drain := (uninit_drain Call_terminate linphone_core_iterate).
Local Abbreviation body := (drain_body Call_terminate linphone_core_iterate).
Local Abbreviation teardown :=
  (uninit Call_terminate linphone_core_iterate clearSipAddressesCache).

Implicit Types (w : World) (tr : list Event) (fuel : nat).

(** What the call stack preserves, the drain loop preserves. *)
Lemma drain_invariant (I : World → Prop) fuel w w' tr :
  (∀ c w0, I w0 → I (Call_terminate c w0)) →
  (∀ w0, I w0 → I (linphone_core_iterate w0)) →
  drain fuel w = Some (w', tr) → I w → I w'.
Proof.
  intros Hterm Htick. revert w w' tr.
  induction fuel as [|fuel IH]; intros w w' tr; simpl.
  - destruct (calls w.2); [|done]. by intros [= <- <-].
  - destruct (calls w.2) as [|front rest]; [by intros [= <- <-]|].
    destruct (drain fuel (body w front)) as [[w1 tr1]|] eqn:Hd; [|done].
    simpl. intros [= <- <-] Hw. eapply IH; [done|].
    by apply Htick, Hterm.
Qed.

Lemma drain_first_pass fuel w w' tr front rest :
  calls w.2 = front :: rest →
  drain fuel w = Some (w', tr) →
  ∃ tr', tr = drain_events front ++ tr'.
Proof.
  intros Hc. destruct fuel as [|fuel]; simpl; rewrite Hc; [done|].
  destruct (drain fuel (body w front)) as [[w1 tr1]|]; [|done].
  simpl. intros [= <- <-]. by exists tr1.
Qed.

(** On a session without active calls [uninit] goes straight to the
    release: no termination request, no tick of the event loop, no sleep,
    whatever the fuel.  Conversely a returned [uninit] whose only event is
    the clearing of the address cache started without active calls. *)
Theorem uninit_without_calls fuel w :
  (calls w.2 = [] →
   teardown fuel w
   = Some (uninit_release clearSipAddressesCache w, [EvClearSipAddressesCache]))
  ∧ (∀ w' tr, teardown fuel w = Some (w', tr) →
              (tr = [EvClearSipAddressesCache] ↔ calls w.2 = [])).
Proof.
  assert (calls w.2 = [] → drain fuel w = Some (w, [])) as Hidle.
  { intros Hc. destruct fuel; simpl; by rewrite Hc. }
  split.
  - intros Hc. unfold uninit. by rewrite (Hidle Hc).
  - intros w' tr Hu. split.
    + intros ->. unfold uninit in Hu.
      destruct (drain fuel w) as [[w1 tr1]|] eqn:Hd; [|done].
      simpl in Hu. injection Hu as _ Htr.
      destruct (calls w.2) as [|front rest] eqn:Hc; [done|].
      destruct (drain_first_pass _ _ _ _ _ _ Hc Hd) as [tr' ->].
      simpl in Htr. discriminate.
    + intros Hc. unfold uninit in Hu. rewrite (Hidle Hc) in Hu.
      simpl in Hu. by injection Hu as _ <-.
Qed.


Lemma drain_hangs_up_in_order (cs : list Call) w :
  (∀ w0 front rest,
     calls w0.2 = front :: rest →
     calls (linphone_core_iterate (Call_terminate front w0)).2 = rest) →
  calls w.2 = cs →
  drain (length cs) w
  = Some (fold_left (λ w0 c, linphone_core_iterate (Call_terminate c w0)) cs w,
          cs ≫= drain_events).
Proof.
  intros Hhangup. revert w. induction cs as [|c cs IH]; intros w Hc; simpl.
  - by rewrite Hc.
  - rewrite Hc. unfold drain_body at 1.
    by rewrite (IH _ (Hhangup _ _ _ Hc)).
Qed.

(** When each tick drops the call whose termination was just requested,
    [uninit] on N active calls makes exactly N passes: it calls
    [terminate] on each call once, in the order of the collection, each
    time followed by a tick and a sleep, and releases the state these N
    requests and ticks lead to. *)
Theorem uninit_terminates_each_call_once w
    (Hhangup : ∀ w0 front rest,
       calls w0.2 = front :: rest →
       calls (linphone_core_iterate (Call_terminate front w0)).2 = rest) :
  teardown (length (calls w.2)) w
  = Some (uninit_release clearSipAddressesCache
            (fold_left (λ w0 c, linphone_core_iterate (Call_terminate c w0))
               (calls w.2) w),
          (calls w.2 ≫= (λ c, [EvTerminate c; EvIterate; EvUsleep 10000]))
          ++ [EvClearSipAddressesCache]).
Proof.
  unfold uninit.
  by rewrite (drain_hangs_up_in_order (calls w.2) w Hhangup eq_refl).
Qed.

(** After [uninit] the two filtered unread counters answer 0 for every
    address and every set of identities, since the collection they walk is
    empty, while the unfiltered counter still answers what it answered
    before, since it asks the storage handle (taken to be left alone by
    the call stack). *)
Theorem counters_after_uninit fuel w w' tr (cCore : LinphoneCore)
    (Hterm : ∀ c w0, mainDb (Call_terminate c w0).2 = mainDb w0.2)
    (Htick : ∀ w0, mainDb (linphone_core_iterate w0).2 = mainDb w0.2)
    (Hreturns : teardown fuel w = Some (w', tr)) :
  (∀ addr, Core.getUnreadChatMessageCount_at w'.2 addr = Some 0)
  ∧ Core.getUnreadChatMessageCountFromActiveLocals cCore w'.2 = Some 0
  ∧ Core.getUnreadChatMessageCount w'.2 = Core.getUnreadChatMessageCount w.2.
Proof.
  unfold uninit in Hreturns.
  destruct (drain fuel w) as [[w1 tr1]|] eqn:Hd; [|done].
  simpl in Hreturns. injection Hreturns as <- <-.
  split; [done|]. split; [done|].
  unfold Core.getUnreadChatMessageCount. simpl. f_equal.
  apply (drain_invariant (λ w0, mainDb w0.2 = mainDb w.2) fuel w w1 tr1); try done.
  - intros c w0 Hw0. by rewrite Hterm.
  - intros w0 Hw0. by rewrite Htick.
Qed.

End TeardownEffects.



Lemma uninit_without_calls_witness :
  uninit Sample.Call_terminate Sample.linphone_core_iterate
    Sample.clearSipAddressesCache 5 Sample.world_idle
  = Some (uninit_release Sample.clearSipAddressesCache Sample.world_idle,
          [EvClearSipAddressesCache]).
Proof.
  apply (uninit_without_calls Sample.Call_terminate Sample.linphone_core_iterate
           Sample.clearSipAddressesCache 5 Sample.world_idle).
  reflexivity.
Defined.


(** With the call stack that drops the first call at each tick, the two
    calls of the sample session are terminated in turn: the requests
    recorded by [terminate] are for call 7, then for call 8. *)
Lemma uninit_terminates_each_call_once_witness :
  ∃ d',
    uninit Sample.Call_terminate Sample.hangup_iterate
      Sample.clearSipAddressesCache 2 Sample.world
    = Some (([8; 7]%positive, d'),
            [EvTerminate 7; EvIterate; EvUsleep 10000;
             EvTerminate 8; EvIterate; EvUsleep 10000;
             EvClearSipAddressesCache])
    ∧ calls d' = [].
Proof.
  assert (∀ (w0 : Sample.Env * CorePrivate) front rest,
            calls w0.2 = front :: rest →
            calls (Sample.hangup_iterate (Sample.Call_terminate front w0)).2 = rest)
    as Hhangup.
  { intros w0 front rest Hc. simpl. by rewrite Hc. }
  pose proof (uninit_terminates_each_call_once Sample.Call_terminate
                Sample.hangup_iterate Sample.clearSipAddressesCache Sample.world
                Hhangup) as Hresult.
  eexists. split; [exact Hresult|reflexivity].
Defined.

(** The sample session after [uninit]: nothing unread for bob any more,
    nothing for the active identities, ten unread messages overall. *)
Lemma counters_after_uninit_witness :
  ∃ w' tr,
    uninit Sample.Call_terminate Sample.linphone_core_iterate
      Sample.clearSipAddressesCache 2 Sample.world = Some (w', tr)
    ∧ Core.getUnreadChatMessageCount_at w'.2 Sample.bob = Some 0
    ∧ Core.getUnreadChatMessageCountFromActiveLocals Sample.cCore w'.2 = Some 0
    ∧ Core.getUnreadChatMessageCount w'.2 = 10.
Proof.
  eexists _, _. split; [reflexivity|].
  destruct (counters_after_uninit Sample.Call_terminate
              Sample.linphone_core_iterate Sample.clearSipAddressesCache
              2 Sample.world _ _ Sample.cCore
              (λ _ _, eq_refl) (λ _, eq_refl) eq_refl)
    as (Hat & Hactive & Hall).
  split; [apply Hat|]. split; [exact Hactive|]. rewrite Hall. reflexivity.
Defined.

(** ** Further properties of the unread counters *)

Section CounterAlgebra.

Implicit Types (rs : list ChatRoom.t) (r : ChatRoom.t).

Context (P Q : ChatRoom.t → Prop) `{!∀ r, Decision (P r)} `{!∀ r, Decision (Q r)}.

(** Once the addition has overflowed the loop cannot recover. *)
Lemma count_loop_stuck rs :
  fold_left (Core.count_step (λ r, bool_decide (P r))) rs None = None.
Proof. by induction rs. Qed.

Lemma count_loop_overflow rs (acc : Z) :
  Forall (λ r, 0 ≤ ChatRoom.getUnreadChatMessageCount r) (filter P rs) →
  INT_MIN ≤ acc ≤ INT_MAX →
  INT_MAX < acc + sum_unread (filter P rs) →
  fold_left (Core.count_step (λ r, bool_decide (P r))) rs (Some acc) = None.
Proof.
  revert acc. induction rs as [|r rs IH]; intros acc Hpos Hacc Hbig; cbn [fold_left].
  - simpl in Hbig. lia.
  - destruct (decide (P r)) as [Hr|Hr].
    + rewrite filter_cons_True in Hpos, Hbig by done.
      apply Forall_cons in Hpos as [Hr0 Hpos]. simpl in Hbig.
      rewrite (count_step_hit P) by done. unfold int_add.
      destruct (decide (in_int (acc + ChatRoom.getUnreadChatMessageCount r)))
        as [Hin|Hout].
      * apply IH; [done|exact Hin|lia].
      * apply count_loop_stuck.
    + rewrite filter_cons_False in Hpos, Hbig by done.
      rewrite (count_step_skip P) by done. by apply IH.
Qed.

(** Two conditions that select the same entities give the same count. *)
Lemma count_loop_ext rs (count : option Z) :
  (∀ r, P r ↔ Q r) →
  fold_left (Core.count_step (λ r, bool_decide (P r))) rs count
  = fold_left (Core.count_step (λ r, bool_decide (Q r))) rs count.
Proof.
  intros Hext. revert count. induction rs as [|r rs IH]; intros count; [done|].
  cbn [fold_left]. rewrite IH. f_equal. unfold Core.count_step.
  by rewrite (bool_decide_ext (P r) (Q r) (Hext r)).
Qed.

Lemma sum_unread_filter_ext rs :
  (∀ r, P r ↔ Q r) → sum_unread (filter P rs) = sum_unread (filter Q rs).
Proof. intros Hext. by rewrite (list_filter_iff P Q rs Hext). Qed.

(** A narrower condition selects less: with non-negative counts its sum
    is between 0 and the sum of the wider one. *)
Lemma sum_unread_filter_mono rs :
  (∀ r, P r → Q r) →
  Forall (λ r, 0 ≤ ChatRoom.getUnreadChatMessageCount r) (filter Q rs) →
  Forall (λ r, 0 ≤ ChatRoom.getUnreadChatMessageCount r) (filter P rs)
  ∧ 0 ≤ sum_unread (filter P rs) ≤ sum_unread (filter Q rs).
Proof.
  intros Himp. induction rs as [|r rs IH]; intros Hpos; [by split|].
  destruct (decide (Q r)) as [Hq|Hq].
  - rewrite (filter_cons_True Q) in Hpos |- * by done.
    apply Forall_cons in Hpos as [Hr Hpos]. destruct (IH Hpos) as [HP Hle].
    destruct (decide (P r)) as [Hp|Hp].
    + rewrite (filter_cons_True P) by done. split; [by constructor|]. simpl. lia.
    + rewrite (filter_cons_False P) by done. split; [done|]. simpl. lia.
  - rewrite (filter_cons_False Q) in Hpos |- * by done.
    rewrite (filter_cons_False P) by (intros Hp; by apply Hq, Himp).
    by apply IH.
Qed.

(** The sum over the entities selected by either of two exclusive
    conditions is the sum of the two sums. *)
Lemma sum_unread_filter_or rs :
  (∀ r, P r → Q r → False) →
  sum_unread (filter (λ r, P r ∨ Q r) rs)
  = sum_unread (filter P rs) + sum_unread (filter Q rs).
Proof.
  intros Hexcl. induction rs as [|r rs IH]; [done|].
  destruct (decide (P r)) as [Hp|Hp]; destruct (decide (Q r)) as [Hq|Hq].
  - destruct (Hexcl r Hp Hq).
  - rewrite (filter_cons_True (λ r, P r ∨ Q r)) by by left.
    rewrite (filter_cons_True P), (filter_cons_False Q) by done. simpl. lia.
  - rewrite (filter_cons_True (λ r, P r ∨ Q r)) by by right.
    rewrite (filter_cons_False P), (filter_cons_True Q) by done. simpl. lia.
  - rewrite (filter_cons_False (λ r, P r ∨ Q r)) by (intros [?|?]; done).
    by rewrite (filter_cons_False P), (filter_cons_False Q) by done.
Qed.

End CounterAlgebra.

Lemma sum_unread_Permutation rs rs' : rs ≡ₚ rs' → sum_unread rs = sum_unread rs'.
Proof. induction 1; simpl; lia. Qed.

(** The sum over the entities whose local address is one of a list of
    distinct addresses is the sum, address by address, of the sums over
    the entities at that address. *)
Lemma sum_unread_by_address (addrs : list IdentityAddress) (rs : list ChatRoom.t) :
  NoDup addrs →
  sum_unread (filter (λ r, ChatRoom.getLocalAddress r ∈ addrs) rs)
  = foldr Z.add 0
      ((λ a, sum_unread (filter (λ r, ChatRoom.getLocalAddress r = a) rs)) <$> addrs).
Proof.
  induction 1 as [|a addrs Ha Hnd IH].
  - rewrite (list_filter_iff _ (λ _, False)); [|intros r; by rewrite elem_of_nil].
    by induction rs.
  - rewrite fmap_cons. cbn [foldr]. rewrite <- IH.
    rewrite <- (sum_unread_filter_or
                  (λ r, ChatRoom.getLocalAddress r = a)
                  (λ r, ChatRoom.getLocalAddress r ∈ addrs))
      by (intros r -> Hin; done).
    apply sum_unread_filter_ext. intros r. by rewrite elem_of_cons.
Qed.

Lemma Forall_nonneg_filter (P : ChatRoom.t → Prop) `{!∀ r, Decision (P r)}
    (rs : list ChatRoom.t) :
  Forall (λ r, 0 ≤ ChatRoom.getUnreadChatMessageCount r) rs →
  Forall (λ r, 0 ≤ ChatRoom.getUnreadChatMessageCount r) (filter P rs).
Proof.
  induction 1 as [|r rs Hr Hrs IH]; [done|].
  destruct (decide (P r)).
  - rewrite filter_cons_True by done. by constructor.
  - by rewrite filter_cons_False.
Qed.

(** With non-negative counts the counting loop is undefined exactly when
    the sum of the selected counts does not fit an [int]. *)
Lemma count_loop_None_iff (P : ChatRoom.t → Prop) `{!∀ r, Decision (P r)}
    (rs : list ChatRoom.t) :
  Forall (λ r, 0 ≤ ChatRoom.getUnreadChatMessageCount r) (filter P rs) →
  fold_left (Core.count_step (λ r, bool_decide (P r))) rs (Some 0) = None
  ↔ INT_MAX < sum_unread (filter P rs).
Proof.
  intros Hpos. split.
  - intros Hnone. destruct (decide (sum_unread (filter P rs) ≤ INT_MAX)) as [Hle|]; [|lia].
    rewrite (count_loop_sum P) in Hnone; [done|done|unfold INT_MIN; lia|lia].
  - intros Hbig. apply (count_loop_overflow P); [done|unfold INT_MIN, INT_MAX; lia|lia].
Qed.

(** When some unread counts are so large that their sum does not fit an
    [int], the filtered counters have no defined result; otherwise they
    have one.  Counts are non-negative. *)
Theorem unread_counters_overflow (cCore : LinphoneCore) (d : CorePrivate)
    (addr : IdentityAddress)
    (Hcounts : Forall (λ r, 0 ≤ ChatRoom.getUnreadChatMessageCount r) (chatRooms d)) :
  (Core.getUnreadChatMessageCount_at d addr = None
   ↔ INT_MAX < sum_unread (filter (λ r, ChatRoom.getLocalAddress r = addr)
                             (chatRooms d)))
  ∧ (Core.getUnreadChatMessageCountFromActiveLocals cCore d = None
     ↔ INT_MAX < sum_unread (filter (λ r, ChatRoom.getLocalAddress r
                                          ∈ Core.activeLocalAddresses cCore)
                               (chatRooms d))).
Proof.
  split.
  - apply (count_loop_None_iff (λ r, ChatRoom.getLocalAddress r = addr)).
    by apply Forall_nonneg_filter.
  - apply (count_loop_None_iff
             (λ r, ChatRoom.getLocalAddress r ∈ Core.activeLocalAddresses cCore)).
    by apply Forall_nonneg_filter.
Qed.

(** When every registration profile carries the primary contact's
    identity (in particular when there is no profile), counting over the
    active identities is counting at the primary contact's address. *)
Theorem activeLocals_single_identity (cCore : LinphoneCore) (d : CorePrivate)
    (Hsame : ∀ cfg, cfg ∈ proxy_config_list cCore →
                    identity_address cfg = primary_contact_parsed cCore) :
  Core.getUnreadChatMessageCountFromActiveLocals cCore d
  = Core.getUnreadChatMessageCount_at d (primary_contact_parsed cCore).
Proof.
  unfold Core.getUnreadChatMessageCountFromActiveLocals,
    Core.getUnreadChatMessageCount_at. cbv zeta.
  apply (count_loop_ext
           (λ r, ChatRoom.getLocalAddress r ∈ Core.activeLocalAddresses cCore)
           (λ r, ChatRoom.getLocalAddress r = primary_contact_parsed cCore)).
  intros r. rewrite activeLocalAddresses_set, elem_of_union, elem_of_singleton.
  rewrite elem_of_list_to_set, list_elem_of_fmap. split; [|by left].
  intros [?|(cfg & -> & Hin)]; [done|]. by apply Hsame.
Qed.

(** The count over the active identities is the sum, over the distinct
    active identities, of the counts at each of them; each of these
    per-identity counts is what [unreadCount(addr)] returns.  Counts are
    non-negative and the total fits an [int]. *)
Theorem activeLocals_is_sum_of_per_identity_counts
    (cCore : LinphoneCore) (d : CorePrivate)
    (Hcounts : Forall (λ r, 0 ≤ ChatRoom.getUnreadChatMessageCount r)
                 (filter (λ r, ChatRoom.getLocalAddress r
                               ∈ Core.activeLocalAddresses cCore) (chatRooms d)))
    (Hfits : sum_unread (filter (λ r, ChatRoom.getLocalAddress r
                                      ∈ Core.activeLocalAddresses cCore) (chatRooms d))
             ≤ INT_MAX) :
  Core.getUnreadChatMessageCountFromActiveLocals cCore d
  = Some (foldr Z.add 0
            ((λ a, sum_unread (filter (λ r, ChatRoom.getLocalAddress r = a)
                                 (chatRooms d)))
             <$> elements (Core.activeLocalAddresses cCore)))
  ∧ (∀ a, a ∈ Core.activeLocalAddresses cCore →
          Core.getUnreadChatMessageCount_at d a
          = Some (sum_unread (filter (λ r, ChatRoom.getLocalAddress r = a)
                                (chatRooms d)))).
Proof.
  split.
  - unfold Core.getUnreadChatMessageCountFromActiveLocals. cbv zeta.
    rewrite (count_loop_sum
               (λ r, ChatRoom.getLocalAddress r ∈ Core.activeLocalAddresses cCore));
      [|done|unfold INT_MIN; lia|lia].
    f_equal. rewrite Z.add_0_l.
    rewrite <- (sum_unread_by_address _ _ (NoDup_elements _)).
    apply sum_unread_filter_ext. intros r. by rewrite elem_of_elements.
  - intros a Ha.
    destruct (sum_unread_filter_mono
                (λ r, ChatRoom.getLocalAddress r = a)
                (λ r, ChatRoom.getLocalAddress r ∈ Core.activeLocalAddresses cCore)
                (chatRooms d)) as [Hpos Hle]; [by intros r ->|done|].
    unfold Core.getUnreadChatMessageCount_at.
    rewrite (count_loop_sum (λ r, ChatRoom.getLocalAddress r = a));
      [f_equal; lia|done|unfold INT_MIN; lia|lia].
Qed.

(** The count over the active identities depends on the profile list only
    through the set of identities it carries: reordering the profiles or
    repeating one changes nothing. *)
Theorem activeLocals_depends_on_identity_set (cCore cCore' : LinphoneCore)
    (d : CorePrivate)
    (Hprimary : primary_contact_parsed cCore' = primary_contact_parsed cCore)
    (Hprofiles : ∀ a, a ∈ identity_address <$> proxy_config_list cCore'
                      ↔ a ∈ identity_address <$> proxy_config_list cCore) :
  Core.getUnreadChatMessageCountFromActiveLocals cCore' d
  = Core.getUnreadChatMessageCountFromActiveLocals cCore d.
Proof.
  unfold Core.getUnreadChatMessageCountFromActiveLocals. cbv zeta.
  apply (count_loop_ext
           (λ r, ChatRoom.getLocalAddress r ∈ Core.activeLocalAddresses cCore')
           (λ r, ChatRoom.getLocalAddress r ∈ Core.activeLocalAddresses cCore)).
  intros r. rewrite !activeLocalAddresses_set, Hprimary.
  rewrite !elem_of_union, !elem_of_list_to_set. by rewrite Hprofiles.
Qed.

(** The order of the conversation collection does not matter to the
    filtered counters, for non-negative counts whose selected sum fits an
    [int]. *)
Theorem unread_counters_ignore_collection_order
    (cCore : LinphoneCore) (d d' : CorePrivate) (addr : IdentityAddress)
    (Hperm : chatRooms d' ≡ₚ chatRooms d)
    (Hcounts : Forall (λ r, 0 ≤ ChatRoom.getUnreadChatMessageCount r) (chatRooms d))
    (Hfits : sum_unread (chatRooms d) ≤ INT_MAX) :
  Core.getUnreadChatMessageCount_at d' addr = Core.getUnreadChatMessageCount_at d addr
  ∧ Core.getUnreadChatMessageCountFromActiveLocals cCore d'
    = Core.getUnreadChatMessageCountFromActiveLocals cCore d.
Proof.
  assert (∀ (P : ChatRoom.t → Prop) `{!∀ r, Decision (P r)},
            fold_left (Core.count_step (λ r, bool_decide (P r))) (chatRooms d') (Some 0)
            = fold_left (Core.count_step (λ r, bool_decide (P r))) (chatRooms d) (Some 0))
    as Hgen.
  { intros P HP.
    assert (Forall (λ r, 0 ≤ ChatRoom.getUnreadChatMessageCount r) (chatRooms d'))
      as Hcounts' by by rewrite Hperm.
    destruct (sum_unread_filter_mono P (λ _, True) (chatRooms d)) as [HposP HleP];
      [done|by apply Forall_nonneg_filter|].
    assert (sum_unread (filter (λ _, True) (chatRooms d)) = sum_unread (chatRooms d))
      as Hall.
    { clear. induction (chatRooms d) as [|r rs IH]; [done|].
      rewrite filter_cons_True by done. simpl. by rewrite IH. }
    assert (sum_unread (filter P (chatRooms d')) = sum_unread (filter P (chatRooms d)))
      as Hsum by (apply sum_unread_Permutation; by rewrite Hperm).
    rewrite !(count_loop_sum P);
      [by rewrite Hsum| done | unfold INT_MIN; lia | lia
       | by apply Forall_nonneg_filter | unfold INT_MIN; lia | lia]. }
  split; [apply (Hgen (λ r, ChatRoom.getLocalAddress r = addr) _)|].
  apply (Hgen (λ r, ChatRoom.getLocalAddress r ∈ Core.activeLocalAddresses cCore) _).
Qed.

(** The count at an active identity never exceeds the count over the
    active identities, and neither is negative.  Counts are non-negative
    and the total over the active identities fits an [int]. *)
Theorem unreadCount_at_below_activeLocals
    (cCore : LinphoneCore) (d : CorePrivate) (addr : IdentityAddress)
    (Hactive : addr ∈ Core.activeLocalAddresses cCore)
    (Hcounts : Forall (λ r, 0 ≤ ChatRoom.getUnreadChatMessageCount r)
                 (filter (λ r, ChatRoom.getLocalAddress r
                               ∈ Core.activeLocalAddresses cCore) (chatRooms d)))
    (Hfits : sum_unread (filter (λ r, ChatRoom.getLocalAddress r
                                      ∈ Core.activeLocalAddresses cCore) (chatRooms d))
             ≤ INT_MAX) :
  ∃ n m,
    Core.getUnreadChatMessageCount_at d addr = Some n
    ∧ Core.getUnreadChatMessageCountFromActiveLocals cCore d = Some m
    ∧ 0 ≤ n ≤ m.
Proof.
  destruct (sum_unread_filter_mono
              (λ r, ChatRoom.getLocalAddress r = addr)
              (λ r, ChatRoom.getLocalAddress r ∈ Core.activeLocalAddresses cCore)
              (chatRooms d)) as [Hpos Hle]; [by intros r ->|done|].
  eexists _, _. split; [|split].
  - unfold Core.getUnreadChatMessageCount_at.
    rewrite (count_loop_sum (λ r, ChatRoom.getLocalAddress r = addr));
      [done|done|unfold INT_MIN; lia|lia].
  - unfold Core.getUnreadChatMessageCountFromActiveLocals. cbv zeta.
    rewrite (count_loop_sum
               (λ r, ChatRoom.getLocalAddress r ∈ Core.activeLocalAddresses cCore));
      [done|done|unfold INT_MIN; lia|lia].
  - lia.
Qed.

(** Two conversations for bob, one of them with [INT_MAX] unread
    messages: the count at bob's address is undefined. *)
Lemma unread_counters_overflow_witness :
  Core.getUnreadChatMessageCount_at Sample.session_overflowing Sample.bob = None.
Proof.
  destruct (unread_counters_overflow Sample.cCore Sample.session_overflowing Sample.bob)
    as [[_ Hnone] _].
  - vm_compute. repeat constructor; discriminate.
  - apply Hnone. vm_compute. reflexivity.
Defined.

Lemma activeLocals_single_identity_witness :
  Core.getUnreadChatMessageCountFromActiveLocals Sample.cCore_own_profiles Sample.session
  = Core.getUnreadChatMessageCount_at Sample.session Sample.alice
  ∧ Core.getUnreadChatMessageCountFromActiveLocals Sample.cCore_own_profiles
      Sample.session = Some 2.
Proof.
  assert (Core.getUnreadChatMessageCountFromActiveLocals Sample.cCore_own_profiles
            Sample.session
          = Core.getUnreadChatMessageCount_at Sample.session Sample.alice) as Heq.
  { apply (activeLocals_single_identity Sample.cCore_own_profiles Sample.session).
    intros cfg Hin. simpl in Hin.
    apply elem_of_cons in Hin as [->|Hin]; [reflexivity|].
    apply elem_of_cons in Hin as [->|Hin]; [reflexivity|].
    by apply elem_of_nil in Hin. }
  split; [exact Heq|]. rewrite Heq. reflexivity.
Defined.

(** In the sample session alice has 2 unread messages and bob 3; the
    count over the active identities is their sum. *)
Lemma activeLocals_is_sum_of_per_identity_counts_witness :
  Core.getUnreadChatMessageCountFromActiveLocals Sample.cCore Sample.session = Some 5
  ∧ Core.getUnreadChatMessageCount_at Sample.session Sample.alice = Some 2
  ∧ Core.getUnreadChatMessageCount_at Sample.session Sample.bob = Some 3.
Proof.
  destruct (activeLocals_is_sum_of_per_identity_counts Sample.cCore Sample.session)
    as [Hsum Heach].
  - vm_compute. repeat constructor; discriminate.
  - vm_compute. discriminate.
  - split; [|split].
    + rewrite Hsum. vm_compute. reflexivity.
    + rewrite Heach; [reflexivity|]. by vm_compute.
    + rewrite Heach; [reflexivity|]. by vm_compute.
Defined.

(** Two profiles for bob count as one. *)
Lemma activeLocals_depends_on_identity_set_witness :
  Core.getUnreadChatMessageCountFromActiveLocals Sample.cCore_one_profile Sample.session
  = Core.getUnreadChatMessageCountFromActiveLocals Sample.cCore Sample.session.
Proof.
  apply (activeLocals_depends_on_identity_set Sample.cCore Sample.cCore_one_profile).
  - reflexivity.
  - intros a. simpl. set_solver.
Defined.

Lemma unread_counters_ignore_collection_order_witness :
  Core.getUnreadChatMessageCount_at Sample.session_reordered Sample.bob
  = Core.getUnreadChatMessageCount_at Sample.session Sample.bob.
Proof.
  apply (unread_counters_ignore_collection_order Sample.cCore Sample.session
           Sample.session_reordered Sample.bob).
  - apply (Permutation_rev [Sample.room_carol; Sample.room_bob; Sample.room_alice]).
  - vm_compute. repeat constructor; discriminate.
  - vm_compute. discriminate.
Defined.

Lemma unreadCount_at_below_activeLocals_witness :
  ∃ n m,
    Core.getUnreadChatMessageCount_at Sample.session Sample.bob = Some n
    ∧ Core.getUnreadChatMessageCountFromActiveLocals Sample.cCore Sample.session = Some m
    ∧ 0 ≤ n ≤ m.
Proof.
  apply (unreadCount_at_below_activeLocals Sample.cCore Sample.session Sample.bob).
  - by vm_compute.
  - vm_compute. repeat constructor; discriminate.
  - vm_compute. discriminate.
Defined.

(** ** Further properties of the start-up *)



(** The choice of storage never aborts, and it is undefined exactly for
    the configurations that set a non-empty URI without a [backend]
    key. *)
Theorem init_storage_undefined_iff (cCore : LinphoneCore) :
  (init_storage cCore = Undefined
   ↔ ∃ uri, config cCore !! ("storage", "uri") = Some uri ∧ uri ≠ ""
            ∧ config cCore !! ("storage", "backend") = None)
  ∧ (∀ message, init_storage cCore ≠ Aborted message).
Proof.
  unfold init_storage, lp_config_get_string.
  destruct (config cCore !! ("storage", "uri")) as [uri|] eqn:Huri; simpl.
  - destruct uri as [|c uri]; simpl.
    + split; [|done]. split; [done|]. intros (uri & [= <-] & Hne & _). done.
    + destruct (config cCore !! ("storage", "backend")) as [backend|]; simpl.
      * split; [|done]. split; [done|]. by intros (uri' & _ & _ & ?).
      * split; [|done]. split; [|done]. intros _. by exists (String c uri).
  - split; [|done]. split; [done|]. by intros (uri & ? & _).
Qed.

(** The Mysql backend is selected exactly when the configuration sets a
    non-empty URI and its [backend] key is the string "mysql"; it is then
    used with that URI, never with the default database file. *)
Theorem init_storage_mysql_iff (cCore : LinphoneCore) (uri : string) :
  init_storage cCore = Returned (AbstractDb.Mysql, uri)
  ↔ config cCore !! ("storage", "uri") = Some uri ∧ uri ≠ ""
    ∧ config cCore !! ("storage", "backend") = Some "mysql".
Proof.
  unfold init_storage, lp_config_get_string.
  destruct (config cCore !! ("storage", "uri")) as [uri'|] eqn:Huri; simpl.
  - destruct uri' as [|c uri']; simpl.
    + split; [done|]. by intros ([= <-] & ? & _).
    + destruct (config cCore !! ("storage", "backend")) as [backend|]; simpl.
      * destruct (decide (strcmp_sign backend "mysql" = 0)) as [Hz|Hnz].
        -- apply strcmp_sign_zero in Hz as ->. split.
           ++ by intros [= <-].
           ++ by intros ([= <-] & _ & _).
        -- split; [done|]. intros (_ & _ & [= ->]).
           by rewrite strcmp_sign_refl in Hnz.
      * split; [done|]. by intros (_ & _ & ?).
  - split; [done|]. by intros (? & _).
Qed.

(** Without a URI, or with an empty one, the [backend] key is not looked
    at: whatever it is set to, even "mysql", the Sqlite3 backend is used
    on the database file of the data directory. *)
Theorem init_storage_backend_ignored_without_uri (cCore : LinphoneCore) (backend : string)
    (Huri : config cCore !! ("storage", "uri") = None
            ∨ config cCore !! ("storage", "uri") = Some "") :
  init_storage
    (mkLinphoneCore (<[("storage", "backend") := backend]> (config cCore))
       (dataPath cCore) (primary_contact_parsed cCore) (proxy_config_list cCore))
  = Returned (AbstractDb.Sqlite3, dataPath cCore +:+ "linphone.db")
  ∧ init_storage cCore = Returned (AbstractDb.Sqlite3, dataPath cCore +:+ "linphone.db").
Proof.
  unfold init_storage, lp_config_get_string. simpl.
  rewrite lookup_insert_ne by done.
  by destruct Huri as [-> | ->].
Qed.

Section StartupEffects.

Context {Env : Type}.
Local Abbreviation World := (Env * CorePrivate)%type.

Variable MainDb_connect : AbstractDb.Backend → string → MainDb.t → bool * MainDb.t.
Variable loadChatRooms : World → World.

Local Abbreviation start := (init MainDb_connect loadChatRooms).



End StartupEffects.

Lemma init_storage_backend_ignored_without_uri_witness :
  init_storage
    (mkLinphoneCore (<[("storage", "backend") := "mysql"]> (config Sample.cCore))
       (dataPath Sample.cCore) (primary_contact_parsed Sample.cCore)
       (proxy_config_list Sample.cCore))
  = Returned (AbstractDb.Sqlite3, "/data/linphone.db").
Proof.
  apply (init_storage_backend_ignored_without_uri Sample.cCore "mysql").
  left. reflexivity.
Defined.

